(** * pdfmind: the PDF processor of [src/pdfmind/processor.py]

    A shallow embedding of [PDFProcessor] (text extraction and the
    sentence-aware chunker [split_text_smart]) and of the pipeline
    [process_pdf_and_store_in_chroma], followed by the properties of the
    specification that concern them.

    Python strings are sequences of Unicode code points: a character is the
    number of its code point, a string a list of them.  Python integers are
    unbounded, hence [Z].  A call either returns a value or raises. *)

From Stdlib Require Import List ZArith NArith Lia Bool String Ascii DecimalString
  DecimalNat.
Import ListNotations.
Open Scope Z_scope.

(** ** Python values *)

Definition char := N.
Definition str := list char.

(** A literal of the source, read as code points. *)
Definition lit (s : string) : str := map N_of_ascii (list_ascii_of_string s).

(** The exception classes that matter here.  [BaseOnly] stands for the classes
    that derive from [BaseException] but not from [Exception]
    ([KeyboardInterrupt], [SystemExit], ...). *)
Inductive exc_class : Type :=
| ValueError
| IndexError
| OtherException (name : string)
| BaseOnly (name : string).

Record exn : Type := mkExn { exn_class : exc_class; exn_str : str }.

Definition isinstance_Exception (e : exn) : bool :=
  match exn_class e with
  | BaseOnly _ => false
  | _ => true
  end.

Inductive result (A : Type) : Type :=
| Ok (a : A)
| Raise (e : exn).
Arguments Ok {A} a.
Arguments Raise {A} e.

Definition rbind {A B} (r : result A) (k : A -> result B) : result B :=
  match r with
  | Ok a => k a
  | Raise e => Raise e
  end.

Notation "x <- c ;; k" := (rbind c (fun x => k))
  (at level 61, c at next level, right associativity).

(** [len(s)] *)
Definition len {A} (s : list A) : Z := Z.of_nat (List.length s).

(** Truth value of a string: [if s:] *)
Definition truthy (s : str) : bool :=
  match s with
  | [] => false
  | _ :: _ => true
  end.

(** [str.isspace] on one character, the table of CPython's
    [_PyUnicode_IsWhitespace]. *)
Definition is_whitespace (c : char) : bool :=
  ((9 <=? c) && (c <=? 13) || (28 <=? c) && (c <=? 32)
   || (c =? 133) || (c =? 160) || (c =? 5760)
   || (8192 <=? c) && (c <=? 8202)
   || (c =? 8232) || (c =? 8233) || (c =? 8239) || (c =? 8287)
   || (c =? 12288))%N.

Fixpoint lstrip (s : str) : str :=
  match s with
  | [] => []
  | c :: s' => if is_whitespace c then lstrip s' else s
  end.

Fixpoint rstrip (s : str) : str :=
  match s with
  | [] => []
  | c :: s' =>
      match rstrip s' with
      | [] => if is_whitespace c then [] else [c]
      | r => c :: r
      end
  end.

(** [s.strip()] *)
Definition strip (s : str) : str := rstrip (lstrip s).

(** [s.startswith(p)] *)
Fixpoint startswith (s p : str) : bool :=
  match p, s with
  | [], _ => true
  | _ :: _, [] => false
  | a :: p', b :: s' => (a =? b)%N && startswith s' p'
  end.

(** A slice bound, adjusted as [PySlice_AdjustIndices] does for step 1. *)
Definition adjust_index (i n : Z) : Z :=
  if i <? 0 then Z.max 0 (i + n) else Z.min i n.

(** [s[lo:hi]]; [hi = None] is the open slice [s[lo:]]. *)
Definition py_slice {A} (s : list A) (lo : Z) (hi : option Z) : list A :=
  let n := len s in
  let lo' := adjust_index lo n in
  let hi' := match hi with Some h => adjust_index h n | None => n end in
  firstn (Z.to_nat (hi' - lo')) (skipn (Z.to_nat lo') s).

(** Number of elements of [range(start, stop, step)], [step <> 0]. *)
Definition range_length (start stop step : Z) : nat :=
  if 0 <? step then
    if start <? stop then Z.to_nat ((stop - start - 1) / step + 1) else 0%nat
  else
    if stop <? start then Z.to_nat ((start - stop - 1) / (- step) + 1) else 0%nat.

Definition range_zero_step : exn :=
  mkExn ValueError (lit "range() arg 3 must not be zero").

(** [range(start, stop, step)], listed. *)
Definition py_range (start stop step : Z) : result (list Z) :=
  if step =? 0 then Raise range_zero_step
  else Ok (map (fun k => start + Z.of_nat k * step)
               (seq 0 (range_length start stop step))).

(** [enumerate(l)] *)
Definition enumerate {A} (l : list A) : list (nat * A) :=
  combine (seq 0 (List.length l)) l.

(** A comprehension or loop whose body may raise. *)
Fixpoint mapM {A B} (f : A -> result B) (l : list A) : result (list B) :=
  match l with
  | [] => Ok []
  | a :: l' => b <- f a ;; bs <- mapM f l' ;; Ok (b :: bs)
  end.

(** ** The sentence splitter: [re.split(r'(?<=[.!?]) +', s)]

    A separator is a maximal run of spaces (U+0020) whose first space follows
    one of [.], [!], [?].  [prev] is the character before the current
    position, [in_sep] tells whether the position is inside a separator. *)

Definition is_space (c : char) : bool := (c =? 32)%N.

Definition is_terminator (c : option char) : bool :=
  match c with
  | Some c => ((c =? 46) || (c =? 33) || (c =? 63))%N
  | None => false
  end.

Definition cons_hd (c : char) (l : list str) : list str :=
  match l with
  | [] => [[c]]
  | p :: ps => (c :: p) :: ps
  end.

Fixpoint re_split_from (prev : option char) (in_sep : bool) (s : str)
  : list str :=
  match s with
  | [] => [[]]
  | c :: s' =>
      if is_space c then
        if in_sep then re_split_from (Some c) true s'
        else if is_terminator prev then [] :: re_split_from (Some c) true s'
        else cons_hd c (re_split_from (Some c) false s')
      else cons_hd c (re_split_from (Some c) false s')
  end.

Definition re_split (s : str) : list str := re_split_from None false s.

(** ** [PDFProcessor.split_text_smart] *)

(** The two variables of the packing loop. *)
Record pack_state : Type := mkPack
  { initial_chunks : list str;
    current_chunk : str }.

(** [initial_chunks.append(current_chunk.strip())] under [if current_chunk:] *)
Definition flush (st : pack_state) : list str :=
  if truthy (current_chunk st)
  then initial_chunks st ++ [strip (current_chunk st)]
  else initial_chunks st.

(** [[sentence[i:i + chunk_size].strip() for i in range(0, len(sentence), chunk_size)]] *)
Definition slices (sentence : str) (chunk_size : Z) : result (list str) :=
  idxs <- py_range 0 (len sentence) chunk_size ;;
  Ok (map (fun i => strip (py_slice sentence i (Some (i + chunk_size)))) idxs).

(** The test of the loop body. *)
Definition estimated_length (st : pack_state) (sentence : str) : Z :=
  len (current_chunk st) + len sentence + 1.

(** One iteration of [for sentence in sentences]. *)
Definition pack_step (chunk_size : Z) (st : pack_state) (sentence : str)
  : result pack_state :=
  if estimated_length st sentence <=? chunk_size then
    Ok (mkPack (initial_chunks st)
               (current_chunk st
                ++ (if truthy (current_chunk st) then lit " " else [])
                ++ sentence))
  else
    let flushed := flush st in
    if len sentence >? chunk_size then
      sl <- slices sentence chunk_size ;;
      Ok (mkPack (flushed ++ sl) [])
    else
      Ok (mkPack flushed sentence).

Fixpoint pack_loop (chunk_size : Z) (st : pack_state) (sentences : list str)
  : result pack_state :=
  match sentences with
  | [] => Ok st
  | sentence :: rest =>
      st' <- pack_step chunk_size st sentence ;;
      pack_loop chunk_size st' rest
  end.

(** The sentences of a non-empty text. *)
Definition sentences_of (text : str) : list str := re_split (strip text).

(** The list [initial_chunks] as it stands before the overlap pass. *)
Definition initial_chunks_of (text : str) (chunk_size : Z)
  : result (list str) :=
  st <- pack_loop chunk_size (mkPack [] []) (sentences_of text) ;;
  Ok (flush st).

(** [initial_chunks[i - 1][-overlap:].strip()] *)
Definition overlap_text (prev : str) (overlap : Z) : str :=
  strip (py_slice prev (- overlap) None).

(** The body of [for i, chunk in enumerate(initial_chunks)]: the value
    appended to [final_chunks]. *)
Definition stitch_one (overlap : Z) (initial : list str)
  (ic : nat * str) : result str :=
  let (i, chunk) := ic in
  if (0 <? i)%nat then
    match nth_error initial (i - 1) with
    | None => Raise (mkExn IndexError (lit "list index out of range"))
    | Some prev =>
        let ov := overlap_text prev overlap in
        if negb (startswith chunk ov)
        then Ok (strip (ov ++ lit " " ++ chunk))
        else Ok (strip chunk)
    end
  else Ok (strip chunk).

Definition add_overlaps (overlap : Z) (initial : list str)
  : result (list str) :=
  mapM (stitch_one overlap initial) (enumerate initial).

(** The value appended for [chunk] when [prev] is the initial chunk before
    it, if there is one: [stitch_one] without the list lookup. *)
Definition stitch_with (overlap : Z) (prev : option str) (chunk : str) : str :=
  match prev with
  | None => strip chunk
  | Some p =>
      let ov := overlap_text p overlap in
      if negb (startswith chunk ov)
      then strip (ov ++ lit " " ++ chunk)
      else strip chunk
  end.

Fixpoint stitch_from (overlap : Z) (prev : option str) (initial : list str)
  : list str :=
  match initial with
  | [] => []
  | chunk :: rest =>
      stitch_with overlap prev chunk :: stitch_from overlap (Some chunk) rest
  end.

(** [text] is [None] when the argument is absent. *)
Definition split_text_smart (text : option str) (chunk_size overlap : Z)
  : result (list str) :=
  match text with
  | None => Ok []
  | Some [] => Ok []
  | Some t =>
      initial <- initial_chunks_of t chunk_size ;;
      add_overlaps overlap initial
  end.

(** ** The external collaborators

    The PDF parser, the embedding model and the vector store are libraries
    outside this repository.  Each call into them may change the outside
    world (files, caches, the database) and may raise.  A page's text is a
    function of the page, the document being loaded already.  The console
    belongs to the outside world too: writing a line to [sys.stdout] may
    raise (a [UnicodeEncodeError] when the stream cannot encode the line, an
    [OSError] when it is closed). *)

Class Collaborators : Type := {
  World : Type;
  Reader : Type;
  Page : Type;
  Model : Type;
  Embeddings : Type;
  Client : Type;
  Collection : Type;
  PdfReader : str -> World -> result Reader * World;
  pages : Reader -> list Page;
  page_extract_text : Page -> result str;
  SentenceTransformer : str -> World -> result Model * World;
  encode : Model -> list str -> World -> result Embeddings * World;
  PersistentClient : str -> World -> result Client * World;
  get_or_create_collection :
    Client -> str -> World -> result Collection * World;
  upsert :
    Collection -> list str -> Embeddings -> list str ->
    World -> result unit * World;
  console_write : str -> World -> result unit * World
}.

Section Processor.

Context {C : Collaborators}.

(** What a run can change: the outside world, and the lines whose [print]
    has returned. *)
Record machine : Type := mkMachine
  { world : World;
    stdout : list str }.

(** A statement sequence: it ends with a value or an exception, the changes
    made so far being kept in both cases. *)
Definition M (A : Type) : Type := machine -> result A * machine.

Definition ret {A} (a : A) : M A := fun m => (Ok a, m).

Definition bind {A B} (c : M A) (k : A -> M B) : M B :=
  fun m =>
    match c m with
    | (Ok a, m') => k a m'
    | (Raise e, m') => (Raise e, m')
    end.

(** A computation without effects. *)
Definition lift {A} (r : result A) : M A := fun m => (r, m).

(** A call into a collaborator. *)
Definition call {A} (f : World -> result A * World) : M A :=
  fun m => let (r, w) := f (world m) in (r, mkMachine w (stdout m)).

(** [print(line)]: the line is written to the console, which may raise; a
    line is counted as printed when the write returns. *)
Definition print (line : str) : M unit :=
  fun m =>
    let (r, w) := console_write line (world m) in
    match r with
    | Ok _ => (Ok tt, mkMachine w (stdout m ++ [line]))
    | Raise e => (Raise e, mkMachine w (stdout m))
    end.

(** [try: body  except Exception as e: handler(e)] *)
Definition try_except_Exception {A} (body : M A) (handler : exn -> M A)
  : M A :=
  fun m =>
    match body m with
    | (Ok a, m') => (Ok a, m')
    | (Raise e, m') =>
        if isinstance_Exception e then handler e m' else (Raise e, m')
    end.

Notation "x <-- c ;;; k" := (bind c (fun x => k))
  (at level 61, c at next level, right associativity).
Notation "c ;;; k" := (bind c (fun _ => k))
  (at level 61, right associativity).

(** The attributes of a [PDFProcessor]. *)
Record PDFProcessor : Type := mkProcessor
  { pdf_path : str;
    reader : Reader;
    text : str;
    chunks : list str;
    embeddings : option Embeddings }.

Definition set_text (self : PDFProcessor) (t : str) : PDFProcessor :=
  mkProcessor (pdf_path self) (reader self) t (chunks self) (embeddings self).

Definition set_chunks (self : PDFProcessor) (c : list str) : PDFProcessor :=
  mkProcessor (pdf_path self) (reader self) (text self) c (embeddings self).

Definition set_embeddings (self : PDFProcessor) (e : Embeddings)
  : PDFProcessor :=
  mkProcessor (pdf_path self) (reader self) (text self) (chunks self) (Some e).

(** [PDFProcessor(pdf_path)] *)
Definition init (path : str) : M PDFProcessor :=
  r <-- call (PdfReader path) ;;;
  ret (mkProcessor path r [] [] None).

Definition newline : str := [10%N].

(** [for page in self.reader.pages: self.text += page.extract_text() + "\n"] *)
Fixpoint extract_loop (self : PDFProcessor) (ps : list Page)
  : result PDFProcessor :=
  match ps with
  | [] => Ok self
  | page :: rest =>
      t <- page_extract_text page ;;
      extract_loop (set_text self (text self ++ (t ++ newline))) rest
  end.

(** [extract_text]: the returned string and the processor afterwards. *)
Definition extract_text (self : PDFProcessor) : result (str * PDFProcessor) :=
  self' <- extract_loop (set_text self []) (pages (reader self)) ;;
  Ok (text self', self').

Definition count_pages (self : PDFProcessor) : Z := len (pages (reader self)).

(** [str(n)] of a length. *)
Definition str_of_nat (n : nat) : str :=
  lit (DecimalString.NilZero.string_of_uint (Nat.to_uint n)).

Definition msg_extracting : str :=
  [128269%N] ++ lit " Extracting text...".
Definition msg_splitting : str :=
  [9986%N; 65039%N] ++ lit " Splitting text into chunks...".
Definition msg_generating (model_name : str) : str :=
  [129504%N] ++ lit " Generating embeddings using model '" ++ model_name
  ++ lit "'...".
Definition msg_initializing : str :=
  [128190%N] ++ lit " Initializing ChromaDB...".
Definition msg_adding : str :=
  [128229%N] ++ lit " Adding embeddings to ChromaDB...".
Definition msg_stored (n : nat) (db_path : str) : str :=
  [9989%N] ++ lit " Stored " ++ str_of_nat n ++ lit " chunks in local DB at: "
  ++ db_path.
Definition msg_error (e : exn) : str :=
  [9888%N; 65039%N] ++ lit " Error: " ++ exn_str e.

(** [generate_embeddings]: the embeddings and the processor afterwards. *)
Definition generate_embeddings (self : PDFProcessor)
  (model_name : str) (chunk_size overlap : Z)
  : M (Embeddings * PDFProcessor) :=
  print msg_extracting ;;;
  ts <-- lift (extract_text self) ;;;
  let (t, self1) := ts in
  print msg_splitting ;;;
  cs <-- lift (split_text_smart (Some t) chunk_size overlap) ;;;
  let self2 := set_chunks self1 cs in
  print (msg_generating model_name) ;;;
  model <-- call (SentenceTransformer model_name) ;;;
  emb <-- call (encode model (chunks self2)) ;;;
  ret (emb, set_embeddings self2 emb).

Definition default_model_name : str := lit "all-MiniLM-L6-v2".
Definition default_chunk_size : Z := 500.
Definition default_overlap : Z := 50.

(** [[f"chunk_{i}" for i in range(n)]] *)
Definition chunk_ids (n : nat) : list str :=
  map (fun i => lit "chunk_" ++ str_of_nat i) (seq 0 n).

(** The statements under [try:]. *)
Definition pipeline_body (path db_path collection_name : str)
  : M (option PDFProcessor * option Collection) :=
  processor <-- init path ;;;
  ep <-- generate_embeddings processor default_model_name
           default_chunk_size default_overlap ;;;
  let (emb, processor) := ep in
  print msg_initializing ;;;
  client <-- call (PersistentClient db_path) ;;;
  collection <-- call (get_or_create_collection client collection_name) ;;;
  print msg_adding ;;;
  let ids := chunk_ids (List.length (chunks processor)) in
  call (upsert collection ids emb (chunks processor)) ;;;
  print (msg_stored (List.length (chunks processor)) db_path) ;;;
  ret (Some processor, Some collection).

(** [process_pdf_and_store_in_chroma]; [Raise] is an exception that reaches
    the caller. *)
Definition process_pdf_and_store_in_chroma
  (path db_path collection_name : str)
  : M (option PDFProcessor * option Collection) :=
  try_except_Exception
    (pipeline_body path db_path collection_name)
    (fun e => print (msg_error e) ;;; ret (None, None)).

End Processor.

(** ** Test doubles

    Collaborators that run inside the model: a document is given by the
    results of reading its pages, an empty path cannot be opened, an embedding
    is the length of its chunk, the store is a list of records
    [(id, document)] on which an upsert replaces the record of an id, and the
    console takes every line. *)

Definition file_not_found : exn :=
  mkExn (OtherException "FileNotFoundError")
        (lit "[Errno 2] No such file or directory").

Definition str_eqb (a b : str) : bool :=
  if list_eq_dec N.eq_dec a b then true else false.

Definition upsert_record (store : list (str * str)) (r : str * str)
  : list (str * str) :=
  filter (fun old => negb (str_eqb (fst old) (fst r))) store ++ [r].

Definition fake_collaborators (document : list (result str)) : Collaborators :=
  {| World := list (str * str);
     Reader := list (result str);
     Page := result str;
     Model := unit;
     Embeddings := list Z;
     Client := unit;
     Collection := str;
     PdfReader := fun path w =>
       if truthy path then (Ok document, w) else (Raise file_not_found, w);
     pages := fun r => r;
     page_extract_text := fun page => page;
     SentenceTransformer := fun _ w => (Ok tt, w);
     encode := fun _ chunks w => (Ok (map len chunks), w);
     PersistentClient := fun _ w => (Ok tt, w);
     get_or_create_collection := fun _ name w => (Ok name, w);
     upsert := fun _ ids _ documents w =>
       (Ok tt, fold_left upsert_record (combine ids documents) w);
     console_write := fun _ w => (Ok tt, w) |}.

(** The same collaborators on a console with the encoding latin-1, which
    has the code points up to 255 only. *)
Definition unicode_encode_error : exn :=
  mkExn (OtherException "UnicodeEncodeError")
        (lit "'latin-1' codec can't encode character").

Definition latin1_write (line : str) (w : list (str * str))
  : result unit * list (str * str) :=
  if forallb (fun c => (c <=? 255)%N) line then (Ok tt, w)
  else (Raise unicode_encode_error, w).

Definition fake_collaborators_latin1 (document : list (result str))
  : Collaborators :=
  {| World := list (str * str);
     Reader := list (result str);
     Page := result str;
     Model := unit;
     Embeddings := list Z;
     Client := unit;
     Collection := str;
     PdfReader := fun path w =>
       if truthy path then (Ok document, w) else (Raise file_not_found, w);
     pages := fun r => r;
     page_extract_text := fun page => page;
     SentenceTransformer := fun _ w => (Ok tt, w);
     encode := fun _ chunks w => (Ok (map len chunks), w);
     PersistentClient := fun _ w => (Ok tt, w);
     get_or_create_collection := fun _ name w => (Ok name, w);
     upsert := fun _ ids _ documents w =>
       (Ok tt, fold_left upsert_record (combine ids documents) w);
     console_write := latin1_write |}.

Definition two_pages : list (result str) :=
  [Ok (lit "Hello world."); Ok (lit "This is a test.")].

Definition keyboard_interrupt : exn :=
  mkExn (BaseOnly "KeyboardInterrupt") [].

(** A document whose second page cannot be read. *)
Definition broken_document : list (result str) :=
  [Ok (lit "Hello world."); Raise file_not_found; Ok (lit "This is a test.")].

(** ** Notions of the specification

    What the specification speaks of, written independently of the code so
    that the code can be compared with it. *)

(** Neither the first nor the last character is whitespace. *)
Definition no_edge_whitespace (s : str) : bool :=
  match s with
  | [] => true
  | c :: _ => negb (is_whitespace c) && negb (is_whitespace (last s c))
  end.

(** Every string of the list is its own [strip()]. *)
Definition all_stripped (l : list str) : Prop :=
  Forall (fun c => strip c = c) l.

(** The characters of [s] other than whitespace, in order. *)
Definition visible (s : str) : str :=
  filter (fun c => negb (is_whitespace c)) s.

(** A sentence boundary inside [p]: one of [.], [!], [?] followed by a
    space, [prev] being the character before [p]. *)
Fixpoint has_boundary_from (prev : option char) (p : str) : bool :=
  match p with
  | [] => false
  | c :: p' =>
      (is_terminator prev && is_space c) || has_boundary_from (Some c) p'
  end.

Definition has_boundary (p : str) : bool := has_boundary_from None p.

(** The trailing [n] characters of [s] (all of [s] when it is shorter). *)
Definition trailing (n : nat) (s : str) : str :=
  skipn (List.length s - n) s.

(** Consecutive slices of width [n]; only the last one may be shorter. *)
Fixpoint chop_fuel (fuel n : nat) (s : str) : list str :=
  match fuel with
  | O => []
  | S fuel' =>
      match s with
      | [] => []
      | _ :: _ => firstn n s :: chop_fuel fuel' n (skipn n s)
      end
  end.

Definition chop (n : nat) (s : str) : list str :=
  chop_fuel (List.length s) n s.

(** Every slice but the last has width [n]; the last has between 1 and [n]
    characters. *)
Fixpoint fixed_width (n : nat) (l : list str) : Prop :=
  match l with
  | [] => True
  | p :: l' =>
      match l' with
      | [] => (1 <= List.length p <= n)%nat
      | _ :: _ => List.length p = n /\ fixed_width n l'
      end
  end.

(** The stitching rule in the specification's words: the stripped trailing
    [overlap] characters of the previous initial chunk and a space are put in
    front of the chunk unless it starts with them already; the result is
    stripped. *)
Definition spec_stitch (overlap : nat) (prev chunk : str) : str :=
  let ov := strip (trailing overlap prev) in
  strip (if startswith chunk ov then chunk else ov ++ lit " " ++ chunk).

(** The whole overlap pass by that rule, [prev] being the initial chunk
    before the current one. *)
Fixpoint spec_stitch_all (overlap : nat) (prev : option str)
  (initial : list str) : list str :=
  match initial with
  | [] => []
  | chunk :: rest =>
      match prev with
      | None => chunk
      | Some p => spec_stitch overlap p chunk
      end :: spec_stitch_all overlap (Some chunk) rest
  end.

(** The stages of the pipeline, and what it is for one of them to raise.
    [stage_raises path db_path name m e m'] holds when, started on [m], the
    calls and the prints before some call of the [try] block return and that
    call raises [e], leaving the machine [m']. *)
Section Stages.

Context {C : Collaborators}.

Variables path db_path name : str.
Variable m : machine.
Variable e : exn.

Definition after (w : World) (lines : list str) : machine :=
  mkMachine w (stdout m ++ lines).

Inductive stage_raises : machine -> Prop :=
| construction_raises w1 :
    PdfReader path (world m) = (Raise e, w1) ->
    stage_raises (mkMachine w1 (stdout m))
| extraction_raises r w1 w1a :
    PdfReader path (world m) = (Ok r, w1) ->
    console_write msg_extracting w1 = (Ok tt, w1a) ->
    extract_text (mkProcessor path r [] [] None) = Raise e ->
    stage_raises (after w1a [msg_extracting])
| chunking_raises r w1 w1a t p1 w1b :
    PdfReader path (world m) = (Ok r, w1) ->
    console_write msg_extracting w1 = (Ok tt, w1a) ->
    extract_text (mkProcessor path r [] [] None) = Ok (t, p1) ->
    console_write msg_splitting w1a = (Ok tt, w1b) ->
    split_text_smart (Some t) default_chunk_size default_overlap = Raise e ->
    stage_raises (after w1b [msg_extracting; msg_splitting])
| model_raises r w1 w1a t p1 w1b cs w1c w2 :
    PdfReader path (world m) = (Ok r, w1) ->
    console_write msg_extracting w1 = (Ok tt, w1a) ->
    extract_text (mkProcessor path r [] [] None) = Ok (t, p1) ->
    console_write msg_splitting w1a = (Ok tt, w1b) ->
    split_text_smart (Some t) default_chunk_size default_overlap = Ok cs ->
    console_write (msg_generating default_model_name) w1b = (Ok tt, w1c) ->
    SentenceTransformer default_model_name w1c = (Raise e, w2) ->
    stage_raises
      (after w2 [msg_extracting; msg_splitting;
                 msg_generating default_model_name])
| encode_raises r w1 w1a t p1 w1b cs w1c w2 model w3 :
    PdfReader path (world m) = (Ok r, w1) ->
    console_write msg_extracting w1 = (Ok tt, w1a) ->
    extract_text (mkProcessor path r [] [] None) = Ok (t, p1) ->
    console_write msg_splitting w1a = (Ok tt, w1b) ->
    split_text_smart (Some t) default_chunk_size default_overlap = Ok cs ->
    console_write (msg_generating default_model_name) w1b = (Ok tt, w1c) ->
    SentenceTransformer default_model_name w1c = (Ok model, w2) ->
    encode model cs w2 = (Raise e, w3) ->
    stage_raises
      (after w3 [msg_extracting; msg_splitting;
                 msg_generating default_model_name])
| client_raises r w1 w1a t p1 w1b cs w1c w2 model w3 emb w3a w4 :
    PdfReader path (world m) = (Ok r, w1) ->
    console_write msg_extracting w1 = (Ok tt, w1a) ->
    extract_text (mkProcessor path r [] [] None) = Ok (t, p1) ->
    console_write msg_splitting w1a = (Ok tt, w1b) ->
    split_text_smart (Some t) default_chunk_size default_overlap = Ok cs ->
    console_write (msg_generating default_model_name) w1b = (Ok tt, w1c) ->
    SentenceTransformer default_model_name w1c = (Ok model, w2) ->
    encode model cs w2 = (Ok emb, w3) ->
    console_write msg_initializing w3 = (Ok tt, w3a) ->
    PersistentClient db_path w3a = (Raise e, w4) ->
    stage_raises
      (after w4 [msg_extracting; msg_splitting;
                 msg_generating default_model_name; msg_initializing])
| collection_raises r w1 w1a t p1 w1b cs w1c w2 model w3 emb w3a w4 client w5 :
    PdfReader path (world m) = (Ok r, w1) ->
    console_write msg_extracting w1 = (Ok tt, w1a) ->
    extract_text (mkProcessor path r [] [] None) = Ok (t, p1) ->
    console_write msg_splitting w1a = (Ok tt, w1b) ->
    split_text_smart (Some t) default_chunk_size default_overlap = Ok cs ->
    console_write (msg_generating default_model_name) w1b = (Ok tt, w1c) ->
    SentenceTransformer default_model_name w1c = (Ok model, w2) ->
    encode model cs w2 = (Ok emb, w3) ->
    console_write msg_initializing w3 = (Ok tt, w3a) ->
    PersistentClient db_path w3a = (Ok client, w4) ->
    get_or_create_collection client name w4 = (Raise e, w5) ->
    stage_raises
      (after w5 [msg_extracting; msg_splitting;
                 msg_generating default_model_name; msg_initializing])
| upsert_raises r w1 w1a t p1 w1b cs w1c w2 model w3 emb w3a w4 client w5
    collection w5a w6 :
    PdfReader path (world m) = (Ok r, w1) ->
    console_write msg_extracting w1 = (Ok tt, w1a) ->
    extract_text (mkProcessor path r [] [] None) = Ok (t, p1) ->
    console_write msg_splitting w1a = (Ok tt, w1b) ->
    split_text_smart (Some t) default_chunk_size default_overlap = Ok cs ->
    console_write (msg_generating default_model_name) w1b = (Ok tt, w1c) ->
    SentenceTransformer default_model_name w1c = (Ok model, w2) ->
    encode model cs w2 = (Ok emb, w3) ->
    console_write msg_initializing w3 = (Ok tt, w3a) ->
    PersistentClient db_path w3a = (Ok client, w4) ->
    get_or_create_collection client name w4 = (Ok collection, w5) ->
    console_write msg_adding w5 = (Ok tt, w5a) ->
    upsert collection (chunk_ids (List.length cs)) emb cs w5a = (Raise e, w6) ->
    stage_raises
      (after w6 [msg_extracting; msg_splitting;
                 msg_generating default_model_name; msg_initializing;
                 msg_adding]).

End Stages.

(** * Properties *)

(** ** Whitespace *)

Lemma lstrip_head (s : str) :
  match lstrip s with
  | [] => True
  | c :: _ => is_whitespace c = false
  end.
Proof.
  induction s as [|c s IH]; simpl; [exact I|].
  destruct (is_whitespace c) eqn:E; [exact IH | exact E].
Qed.

Lemma rstrip_cons_keep (c : char) (s : str) :
  is_whitespace c = false -> rstrip (c :: s) = c :: rstrip s.
Proof.
  intros E. simpl. rewrite E. destruct (rstrip s); reflexivity.
Qed.

Lemma rstrip_last (s : str) (d : char) :
  rstrip s <> [] -> is_whitespace (last (rstrip s) d) = false.
Proof.
  induction s as [|c s IH]; simpl; [congruence|].
  destruct (rstrip s) as [|r rs] eqn:R.
  - destruct (is_whitespace c) eqn:E; [congruence | intros _; exact E].
  - intros _. change (last (c :: r :: rs) d) with (last (r :: rs) d).
    apply IH. discriminate.
Qed.

Lemma rstrip_fixed (s : str) (d : char) :
  (s <> [] -> is_whitespace (last s d) = false) -> rstrip s = s.
Proof.
  induction s as [|c s IH]; intros H; [reflexivity|].
  simpl. destruct s as [|c' s'].
  - simpl in *. rewrite H by discriminate. reflexivity.
  - rewrite IH.
    + reflexivity.
    + intros _. apply H. discriminate.
Qed.

Lemma rstrip_idem (s : str) : rstrip (rstrip s) = rstrip s.
Proof. apply (rstrip_fixed _ 0%N), rstrip_last. Qed.

Lemma lstrip_fixed (s : str) :
  match s with [] => True | c :: _ => is_whitespace c = false end ->
  lstrip s = s.
Proof. destruct s as [|c s]; simpl; [reflexivity|]. intros ->. reflexivity. Qed.

Lemma rstrip_keeps_head (s : str) :
  match s with [] => True | c :: _ => is_whitespace c = false end ->
  match rstrip s with [] => True | c :: _ => is_whitespace c = false end.
Proof.
  destruct s as [|c s]; [exact (fun H => H)|].
  intros E. rewrite (rstrip_cons_keep _ _ E). exact E.
Qed.

Lemma strip_head (s : str) :
  match strip s with [] => True | c :: _ => is_whitespace c = false end.
Proof. apply rstrip_keeps_head, lstrip_head. Qed.

Lemma strip_idem (s : str) : strip (strip s) = strip s.
Proof.
  unfold strip at 1. rewrite (lstrip_fixed (strip s)) by apply strip_head.
  apply rstrip_idem.
Qed.

Lemma strip_no_edge (s : str) : no_edge_whitespace (strip s) = true.
Proof.
  pose proof (strip_head s) as H.
  unfold no_edge_whitespace. destruct (strip s) as [|c r] eqn:E; [reflexivity|].
  rewrite H. simpl negb at 1. rewrite andb_true_l.
  rewrite <- E. unfold strip. rewrite rstrip_last; [reflexivity|].
  fold (strip s). rewrite E. discriminate.
Qed.

(** ** Loops that may raise *)

Lemma mapM_Forall {A B} (f : A -> result B) (P : B -> Prop) (l : list A) :
  (forall a b, f a = Ok b -> P b) ->
  forall bs, mapM f l = Ok bs -> Forall P bs.
Proof.
  intros Hf. induction l as [|a l IH]; simpl; intros bs H.
  - injection H as <-. constructor.
  - destruct (f a) as [b|e] eqn:Fa; simpl in H; [|discriminate].
    destruct (mapM f l) as [bs'|e] eqn:Fl; simpl in H; [|discriminate].
    injection H as <-. constructor; eauto.
Qed.

Lemma stitch_one_stripped (overlap : Z) (initial : list str) (ic : nat * str)
  (c : str) :
  stitch_one overlap initial ic = Ok c -> exists x, c = strip x.
Proof.
  destruct ic as [i chunk]. unfold stitch_one.
  destruct (0 <? i)%nat.
  - destruct (nth_error initial (i - 1)) as [prev|]; [|discriminate].
    destruct (negb _); intros [= <-]; eauto.
  - intros [= <-]; eauto.
Qed.

(** C9. Whenever [split_text_smart] returns, every returned chunk equals its
    own [strip()], and neither its first nor its last character is
    whitespace. *)
Theorem split_text_smart_chunks_stripped
  (text : option str) (chunk_size overlap : Z) (out : list str) :
  split_text_smart text chunk_size overlap = Ok out ->
  Forall (fun c => strip c = c /\ no_edge_whitespace c = true) out.
Proof.
  unfold split_text_smart.
  destruct text as [[|c t]|]; try (intros [= <-]; constructor).
  destruct (initial_chunks_of (c :: t) chunk_size) as [initial|e];
    simpl; [|discriminate].
  apply mapM_Forall. intros a b H.
  destruct (stitch_one_stripped _ _ _ _ H) as [x ->].
  split; [apply strip_idem | apply strip_no_edge].
Qed.

Lemma split_text_smart_chunks_stripped_witness :
  Forall (fun c => strip c = c /\ no_edge_whitespace c = true)
    [lit "Hello world."; lit "orld. This is a test."].
Proof.
  apply (split_text_smart_chunks_stripped
           (Some (lit "Hello world. This is a test.")) 15 5).
  vm_compute. reflexivity.
Defined.

(** C5. On the empty string and on an absent text [split_text_smart] returns
    the empty list, whatever [chunk_size] and [overlap] are; it does not
    raise. *)
Theorem split_text_smart_empty (chunk_size overlap : Z) :
  split_text_smart (Some []) chunk_size overlap = Ok []
  /\ split_text_smart None chunk_size overlap = Ok [].
Proof. split; reflexivity. Qed.

(** C6. [split_text_smart("Hello world. This is a test.", 15, 5)] has exactly
    two chunks; the initial chunks are the two sentences, and the second
    returned chunk starts with the stripped last 5 characters of the first
    initial chunk. *)
Theorem scenario_hello_world :
  let text := lit "Hello world. This is a test." in
  initial_chunks_of text 15 = Ok [lit "Hello world."; lit "This is a test."]
  /\ split_text_smart (Some text) 15 5
     = Ok [lit "Hello world."; lit "orld. This is a test."]
  /\ overlap_text (lit "Hello world.") 5 = lit "orld."
  /\ startswith (lit "orld. This is a test.")
       (overlap_text (lit "Hello world.") 5) = true.
Proof. vm_compute. repeat split; reflexivity. Qed.

(** ** The sentence splitter *)

Lemma whitespace_space (c : char) : is_space c = true -> is_whitespace c = true.
Proof.
  unfold is_space. intros H. apply N.eqb_eq in H. subst c. reflexivity.
Qed.

(** The first sentence of a text that starts with a character other than a
    space starts with that character. *)
Lemma re_split_first (c : char) (s : str) :
  is_space c = false ->
  exists p ps, re_split (c :: s) = (c :: p) :: ps.
Proof.
  intros E. unfold re_split. simpl. rewrite E.
  destruct (re_split_from (Some c) false s) as [|p ps]; simpl; eauto.
Qed.

Lemma sentences_of_first (text : str) :
  strip text <> [] ->
  exists c p ps, sentences_of text = (c :: p) :: ps.
Proof.
  intros H. unfold sentences_of.
  pose proof (strip_head text) as Hd.
  destruct (strip text) as [|c r]; [congruence|].
  destruct (re_split_first c r) as (p & ps & ->); eauto.
  destruct (is_space c) eqn:E; [|reflexivity].
  apply whitespace_space in E. congruence.
Qed.

Lemma len_nonneg {A} (s : list A) : 0 <= len s.
Proof. unfold len. lia. Qed.

Lemma len_cons {A} (a : A) (s : list A) : len (a :: s) = len s + 1.
Proof. unfold len. simpl List.length. lia. Qed.

(** C10. With [chunk_size = 0], a text that is not empty after [strip()]
    makes [split_text_smart] raise the [ValueError] of [range] with a zero
    step; no value is returned. *)
Theorem split_text_smart_zero_chunk_size (text : str) (overlap : Z) :
  strip text <> [] ->
  split_text_smart (Some text) 0 overlap = Raise range_zero_step
  /\ exn_class range_zero_step = ValueError.
Proof.
  intros H. split; [|reflexivity].
  destruct (sentences_of_first text H) as (c & p & ps & Hs).
  unfold split_text_smart.
  destruct text as [|t0 t]; [elim H; reflexivity|].
  unfold initial_chunks_of. rewrite Hs.
  cbn [pack_loop]. unfold pack_step, estimated_length.
  cbn [current_chunk]. change (len []) with 0.
  pose proof (len_nonneg p) as Hp. rewrite len_cons.
  destruct (0 + (len p + 1) + 1 <=? 0) eqn:E1; [apply Z.leb_le in E1; lia|].
  destruct (len p + 1 >? 0) eqn:E2.
  - reflexivity.
  - rewrite Z.gtb_ltb in E2. apply Z.ltb_ge in E2. lia.
Qed.

Lemma split_text_smart_zero_chunk_size_witness :
  split_text_smart (Some (lit " Hello world. ")) 0 50 = Raise range_zero_step
  /\ exn_class range_zero_step = ValueError.
Proof.
  apply (split_text_smart_zero_chunk_size (lit " Hello world. ") 50).
  vm_compute. discriminate.
Defined.

(** ** The packing loop *)




(** The [+ 1] is counted against an empty [current_chunk]: a first sentence
    of exactly [chunk_size] characters fails the test. *)
Example estimated_length_empty_chunk :
  estimated_length (mkPack [] []) (lit "Stop.") = 6
  /\ (estimated_length (mkPack [] []) (lit "Stop.") <=? 5) = false.
Proof. split; reflexivity. Qed.

(** ** Fixed-width slices *)

Lemma firstn_clamp {A} (w : nat) (l : list A) :
  firstn (Nat.min w (List.length l)) l = firstn w l.
Proof.
  destruct (Nat.le_gt_cases w (List.length l)) as [H|H].
  - rewrite Nat.min_l by exact H. reflexivity.
  - rewrite Nat.min_r by lia.
    rewrite !firstn_all2 by lia. reflexivity.
Qed.

(** A slice with non-negative bounds [i] and [i + w]. *)
Lemma py_slice_window {A} (s : list A) (i w : Z) :
  0 <= i -> 0 <= w ->
  py_slice s i (Some (i + w)) = firstn (Z.to_nat w) (skipn (Z.to_nat i) s).
Proof.
  intros Hi Hw. unfold py_slice, adjust_index, len.
  destruct (i <? 0) eqn:E1; [apply Z.ltb_lt in E1; lia|].
  destruct (i + w <? 0) eqn:E2; [apply Z.ltb_lt in E2; lia|].
  destruct (Z.le_gt_cases (Z.of_nat (List.length s)) i) as [H|H].
  - rewrite (skipn_all2 (n := Z.to_nat (Z.min _ _))) by lia.
    rewrite (skipn_all2 (n := Z.to_nat i)) by lia.
    now rewrite !firstn_nil.
  - replace (Z.to_nat (Z.min i (Z.of_nat (List.length s)))) with (Z.to_nat i)
      by lia.
    rewrite <- (firstn_clamp (Z.to_nat w)). f_equal.
    rewrite length_skipn. lia.
Qed.

Lemma range_length_step (L : nat) (w : Z) :
  0 < w -> (0 < L)%nat ->
  range_length 0 (Z.of_nat L) w
  = S (range_length 0 (Z.of_nat (L - Z.to_nat w)) w).
Proof.
  intros Hw HL. unfold range_length.
  destruct (0 <? w) eqn:E; [|apply Z.ltb_ge in E; lia].
  destruct (0 <? Z.of_nat L) eqn:E1; [|apply Z.ltb_ge in E1; lia].
  destruct (Z.le_gt_cases (Z.of_nat L) w) as [H|H].
  - replace (L - Z.to_nat w)%nat with 0%nat by lia. simpl.
    rewrite Z.div_small by lia. reflexivity.
  - destruct (0 <? Z.of_nat (L - Z.to_nat w)) eqn:E2;
      [|apply Z.ltb_ge in E2; lia].
    replace (Z.of_nat L - 0 - 1)
      with ((Z.of_nat (L - Z.to_nat w) - 0 - 1) + 1 * w) by lia.
    rewrite Z.div_add by lia.
    assert (0 <= (Z.of_nat (L - Z.to_nat w) - 0 - 1) / w)
      by (apply Z.div_pos; lia).
    lia.
Qed.

Lemma range_length_nil (w : Z) : range_length 0 (Z.of_nat 0) w = 0%nat.
Proof.
  unfold range_length. simpl. destruct (0 <? w); reflexivity.
Qed.

(** The windows at [0], [n], [2n], ... are the consecutive slices. *)
Lemma windows_chop (w : Z) (fuel : nat) :
  0 < w ->
  forall s : str, (List.length s <= fuel)%nat ->
  map (fun k => firstn (Z.to_nat w) (skipn (k * Z.to_nat w) s))
      (seq 0 (range_length 0 (len s) w))
  = chop_fuel fuel (Z.to_nat w) s.
Proof.
  intros Hw. induction fuel as [|fuel IH]; intros s Hs.
  - destruct s; [|simpl in Hs; lia]. unfold len. simpl List.length.
    rewrite range_length_nil. reflexivity.
  - destruct s as [|c s].
    + unfold len. simpl List.length. rewrite range_length_nil. reflexivity.
    + unfold len. rewrite range_length_step by (simpl; lia).
      cbn [chop_fuel]. rewrite <- cons_seq, <- seq_shift, map_cons, map_map.
      f_equal.
      rewrite <- IH by (rewrite length_skipn; cbn [List.length] in *; lia).
      unfold len. rewrite length_skipn.
      apply map_ext. intros k. rewrite skipn_skipn.
      now replace (S k * Z.to_nat w)%nat with (k * Z.to_nat w + Z.to_nat w)%nat
        by lia.
Qed.

Lemma slices_chop (sentence : str) (chunk_size : Z) :
  0 < chunk_size ->
  slices sentence chunk_size
  = Ok (map strip (chop (Z.to_nat chunk_size) sentence)).
Proof.
  intros Hw. unfold slices, py_range.
  destruct (chunk_size =? 0) eqn:E; [apply Z.eqb_eq in E; lia|].
  cbn [rbind]. f_equal. unfold chop.
  rewrite <- (windows_chop chunk_size) by (assumption || reflexivity).
  rewrite !map_map. apply map_ext. intros k. f_equal.
  rewrite py_slice_window by lia. f_equal. f_equal. lia.
Qed.

Lemma chop_fuel_concat (n fuel : nat) :
  (0 < n)%nat ->
  forall s : str, (List.length s <= fuel)%nat ->
  List.concat (chop_fuel fuel n s) = s.
Proof.
  intros Hn. induction fuel as [|fuel IH]; intros s Hs.
  - destruct s; [reflexivity | simpl in Hs; lia].
  - destruct s as [|c s]; [reflexivity|].
    cbn [chop_fuel List.concat]. rewrite IH.
    + apply firstn_skipn.
    + rewrite length_skipn. cbn [List.length] in *. lia.
Qed.

Lemma chop_fuel_fixed_width (n fuel : nat) :
  (0 < n)%nat ->
  forall s : str, (List.length s <= fuel)%nat ->
  fixed_width n (chop_fuel fuel n s).
Proof.
  intros Hn. induction fuel as [|fuel IH]; intros s Hs; [exact I|].
  destruct s as [|c s]; [exact I|].
  cbn [chop_fuel fixed_width].
  assert (Hk : (List.length (skipn n (c :: s)) <= fuel)%nat)
    by (rewrite length_skipn; cbn [List.length] in *; lia).
  specialize (IH _ Hk).
  destruct (chop_fuel fuel n (skipn n (c :: s))) as [|q qs] eqn:E.
  - rewrite length_firstn. simpl List.length. lia.
  - split; [|exact IH].
    rewrite length_firstn.
    destruct (Nat.le_gt_cases n (List.length (c :: s))) as [H|H]; [lia|].
    rewrite skipn_all2 in E by lia.
    destruct fuel; discriminate.
Qed.



Example oversized_sentence_run :
  pack_step 5 (mkPack [lit "Hi."] (lit "Go on."))
    (lit "It is a long sentence.")
  = Ok (mkPack [lit "Hi."; lit "Go on."; lit "It is"; lit "a lo";
                lit "ng se"; lit "ntenc"; lit "e."] []).
Proof. vm_compute. reflexivity. Qed.

(** With a positive [chunk_size] the packing loop does not raise. *)
Lemma pack_step_total (chunk_size : Z) (st : pack_state) (s : str) :
  0 < chunk_size -> exists st', pack_step chunk_size st s = Ok st'.
Proof.
  intros H. unfold pack_step.
  destruct (_ <=? _); [eauto|].
  destruct (_ >? _); [|eauto].
  rewrite slices_chop by exact H. cbn [rbind]. eauto.
Qed.

Lemma pack_loop_total (chunk_size : Z) (l : list str) :
  0 < chunk_size ->
  forall st, exists st', pack_loop chunk_size st l = Ok st'.
Proof.
  intros H. induction l as [|s l IH]; intros st; cbn [pack_loop]; [eauto|].
  destruct (pack_step_total chunk_size st s H) as [st1 ->]. cbn [rbind].
  apply IH.
Qed.

Lemma initial_chunks_total (text : str) (chunk_size : Z) :
  0 < chunk_size -> exists initial, initial_chunks_of text chunk_size = Ok initial.
Proof.
  intros H. unfold initial_chunks_of.
  destruct (pack_loop_total chunk_size (sentences_of text) H (mkPack [] []))
    as [st ->].
  cbn [rbind]. eauto.
Qed.

(** ** The overlap pass *)

(** The lookup [initial_chunks[i - 1]] never fails: the pass is the
    recursion that carries the previous initial chunk along. *)
Lemma stitch_loop_from (overlap : Z) (l pre : list str) (prev : option str) :
  match prev with
  | None => pre = []
  | Some p => exists pre0, pre = pre0 ++ [p]
  end ->
  mapM (stitch_one overlap (pre ++ l))
       (combine (seq (List.length pre) (List.length l)) l)
  = Ok (stitch_from overlap prev l).
Proof.
  revert pre prev. induction l as [|c l IH]; intros pre prev Hprev.
  - reflexivity.
  - cbn [List.length seq combine mapM stitch_from].
    assert (Hone : stitch_one overlap (pre ++ c :: l) (List.length pre, c)
                   = Ok (stitch_with overlap prev c)).
    { unfold stitch_one, stitch_with. destruct prev as [p|].
      - destruct Hprev as [pre0 ->].
        rewrite length_app. cbn [List.length].
        replace (0 <? List.length pre0 + 1)%nat with true
          by (symmetry; apply Nat.ltb_lt; lia).
        replace (List.length pre0 + 1 - 1)%nat
          with (List.length pre0 + 0)%nat by lia.
        rewrite <- !app_assoc, nth_error_app2 by lia.
        replace (List.length pre0 + 0 - List.length pre0)%nat with 0%nat by lia.
        cbn [app nth_error]. destruct (negb _); reflexivity.
      - subst pre. reflexivity. }
    rewrite Hone. cbn [rbind].
    specialize (IH (pre ++ [c]) (Some c)).
    rewrite <- app_assoc, length_app in IH. cbn [List.length app] in IH.
    replace (List.length pre + 1)%nat with (S (List.length pre)) in IH by lia.
    rewrite IH by eauto. reflexivity.
Qed.

Lemma add_overlaps_stitch_from (overlap : Z) (initial : list str) :
  add_overlaps overlap initial = Ok (stitch_from overlap None initial).
Proof.
  unfold add_overlaps, enumerate.
  apply (stitch_loop_from overlap initial [] None). reflexivity.
Qed.

(** With a positive [chunk_size], [split_text_smart] returns. *)
Lemma split_text_smart_total (text : option str) (chunk_size overlap : Z) :
  0 < chunk_size -> exists out, split_text_smart text chunk_size overlap = Ok out.
Proof.
  intros H. unfold split_text_smart.
  destruct text as [[|c t]|]; eauto.
  destruct (initial_chunks_total (c :: t) chunk_size H) as [initial ->].
  cbn [rbind]. rewrite add_overlaps_stitch_from. eauto.
Qed.

(** [s[-n:]] for [n > 0] is the trailing [n] characters. *)
Lemma py_slice_trailing (s : str) (n : Z) :
  0 < n -> py_slice s (- n) None = trailing (Z.to_nat n) s.
Proof.
  intros Hn. unfold py_slice, adjust_index, trailing, len.
  destruct (- n <? 0) eqn:E; [|apply Z.ltb_ge in E; lia].
  replace (Z.to_nat (Z.max 0 (- n + Z.of_nat (List.length s))))
    with (List.length s - Z.to_nat n)%nat by lia.
  apply firstn_all2. rewrite length_skipn. lia.
Qed.

(** [s[-0:]] is [s[0:]], all of [s]. *)
Lemma py_slice_minus_zero (s : str) : py_slice s (- 0) None = s.
Proof.
  unfold py_slice, adjust_index, len. cbn [Z.opp Z.ltb Z.compare].
  rewrite Z.min_l by lia. cbn [Z.to_nat skipn].
  apply firstn_all2. lia.
Qed.

Lemma trailing_zero (s : str) : trailing 0 s = [].
Proof. unfold trailing. apply skipn_all2. lia. Qed.

(** *** The initial chunks are stripped *)

Lemma all_stripped_map_strip (l : list str) : all_stripped (map strip l).
Proof.
  induction l; constructor; [apply strip_idem | assumption].
Qed.

Lemma flush_stripped (st : pack_state) :
  all_stripped (initial_chunks st) -> all_stripped (flush st).
Proof.
  intros H. unfold flush. destruct (truthy _); [|exact H].
  apply Forall_app. split; [exact H|].
  constructor; [apply strip_idem | constructor].
Qed.

Lemma pack_step_stripped (chunk_size : Z) (st st' : pack_state) (s : str) :
  all_stripped (initial_chunks st) ->
  pack_step chunk_size st s = Ok st' ->
  all_stripped (initial_chunks st').
Proof.
  intros H. unfold pack_step.
  destruct (_ <=? _); [intros [= <-]; exact H|].
  destruct (_ >? _).
  - unfold slices. destruct (py_range _ _ _) as [idxs|e]; simpl; [|discriminate].
    intros [= <-]. cbn [initial_chunks].
    apply Forall_app. split; [now apply flush_stripped|].
    rewrite <- (map_map _ strip). apply all_stripped_map_strip.
  - intros [= <-]. now apply flush_stripped.
Qed.

Lemma pack_loop_stripped (chunk_size : Z) (l : list str) :
  forall st st',
  all_stripped (initial_chunks st) ->
  pack_loop chunk_size st l = Ok st' ->
  all_stripped (initial_chunks st').
Proof.
  induction l as [|s l IH]; intros st st' H; simpl.
  - intros [= <-]. exact H.
  - destruct (pack_step chunk_size st s) as [st1|e] eqn:E; simpl; [|discriminate].
    apply IH. eapply pack_step_stripped; eassumption.
Qed.

Lemma initial_chunks_stripped (text : str) (chunk_size : Z) (initial : list str) :
  initial_chunks_of text chunk_size = Ok initial -> all_stripped initial.
Proof.
  unfold initial_chunks_of.
  destruct (pack_loop _ _ _) as [st|e] eqn:E; simpl; [|discriminate].
  intros [= <-]. apply flush_stripped.
  eapply pack_loop_stripped; [|exact E]. constructor.
Qed.

(** *** The rule of the specification, for a positive overlap *)

Lemma stitch_with_spec (overlap : Z) (prev chunk : str) :
  0 < overlap ->
  stitch_with overlap (Some prev) chunk
  = spec_stitch (Z.to_nat overlap) prev chunk.
Proof.
  intros H. unfold stitch_with, spec_stitch, overlap_text.
  rewrite py_slice_trailing by exact H.
  destruct (startswith _ _); reflexivity.
Qed.

Lemma stitch_from_spec_some (overlap : Z) (initial : list str) :
  0 < overlap -> all_stripped initial ->
  forall p,
  stitch_from overlap (Some p) initial
  = spec_stitch_all (Z.to_nat overlap) (Some p) initial.
Proof.
  intros Hov. induction initial as [|c l IH]; intros Hs p; [reflexivity|].
  inversion Hs as [|? ? Hc Hl]; subst.
  cbn [stitch_from spec_stitch_all].
  rewrite IH by exact Hl. rewrite stitch_with_spec by exact Hov. reflexivity.
Qed.

Lemma stitch_from_spec (overlap : Z) (initial : list str) :
  0 < overlap -> all_stripped initial ->
  stitch_from overlap None initial
  = spec_stitch_all (Z.to_nat overlap) None initial.
Proof.
  intros Hov Hs. destruct initial as [|c l]; [reflexivity|].
  inversion Hs as [|? ? Hc Hl]; subst.
  cbn [stitch_from spec_stitch_all stitch_with].
  rewrite Hc, stitch_from_spec_some by assumption. reflexivity.
Qed.

(** With [overlap > 0] the returned chunks are the initial chunks stitched by
    the specification's rule: the first one as it is, every later one with
    the stripped trailing [overlap] characters of the initial chunk before it
    in front, unless it starts with them. *)
Lemma stitching_rule_positive_overlap
  (text : str) (chunk_size overlap : Z) (initial : list str) :
  0 < overlap -> text <> [] ->
  initial_chunks_of text chunk_size = Ok initial ->
  split_text_smart (Some text) chunk_size overlap
  = Ok (spec_stitch_all (Z.to_nat overlap) None initial).
Proof.
  intros Hov Ht Hi. unfold split_text_smart.
  destruct text as [|c t]; [congruence|].
  rewrite Hi. cbn [rbind]. rewrite add_overlaps_stitch_from.
  f_equal.
  apply stitch_from_spec; [exact Hov|].
  eapply initial_chunks_stripped; eassumption.
Qed.

(** The rule read by index. *)
Lemma spec_stitch_all_nth (n : nat) (initial : list str) (i : nat) :
  forall prev,
  nth_error (spec_stitch_all n prev initial) (S i)
  = match nth_error initial i, nth_error initial (S i) with
    | Some p, Some c => Some (spec_stitch n p c)
    | _, _ => None
    end.
Proof.
  revert i. induction initial as [|c l IH]; intros i prev.
  - destruct i; reflexivity.
  - cbn [spec_stitch_all nth_error]. destruct i as [|i].
    + destruct l as [|c' l']; reflexivity.
    + rewrite IH. cbn [nth_error]. reflexivity.
Qed.

Lemma spec_stitch_all_first (n : nat) (initial : list str) :
  nth_error (spec_stitch_all n None initial) 0 = nth_error initial 0.
Proof. destruct initial; reflexivity. Qed.

(** *** Overlap 0 *)

(** C1. At [overlap = 0] the code departs from the stitching rule: on
    ["Ab. Cd. Ef."] with [chunk_size = 4] the initial chunks are the three
    sentences and the rule (nothing to prepend, the trailing 0 characters
    being the empty string) leaves them as they are, but the code returns the
    second and third chunk with the whole previous initial chunk in front. *)
Theorem stitching_rule_at_zero_overlap :
  let text := lit "Ab. Cd. Ef." in
  let initial := [lit "Ab."; lit "Cd."; lit "Ef."] in
  initial_chunks_of text 4 = Ok initial
  /\ spec_stitch_all 0 None initial = initial
  /\ split_text_smart (Some text) 4 0
     = Ok [lit "Ab."; lit "Ab. Cd."; lit "Cd. Ef."]
  /\ split_text_smart (Some text) 4 0 <> Ok (spec_stitch_all 0 None initial).
Proof.
  vm_compute. repeat split; try reflexivity. discriminate.
Qed.

(** C4. With [overlap = 0] the overlap text is not empty: [prev[-0:]] is all
    of [prev], so it is the whole previous initial chunk, stripped; and
    [split_text_smart("Hello world. This is a test.", 15, 0)] does not return
    the initial chunk list. *)
Theorem zero_overlap_is_not_a_noop :
  (forall prev, overlap_text prev 0 = strip prev)
  /\ let text := lit "Hello world. This is a test." in
     initial_chunks_of text 15 = Ok [lit "Hello world."; lit "This is a test."]
     /\ split_text_smart (Some text) 15 0
        = Ok [lit "Hello world."; lit "Hello world. This is a test."]
     /\ split_text_smart (Some text) 15 0 <> initial_chunks_of text 15.
Proof.
  split.
  - intros prev. unfold overlap_text. now rewrite py_slice_minus_zero.
  - vm_compute. repeat split; try reflexivity. discriminate.
Qed.

(** ** Text extraction *)

Section Extraction.

Context {C : Collaborators}.

Lemma set_text_set_text (self : PDFProcessor) (a b : str) :
  set_text (set_text self a) b = set_text self b.
Proof. reflexivity. Qed.

Lemma extract_loop_all (ps : list Page) (texts : list str) :
  Forall2 (fun page t => page_extract_text page = Ok t) ps texts ->
  forall self,
  extract_loop self ps
  = Ok (set_text self
          (text self ++ List.concat (map (fun t => t ++ newline) texts))).
Proof.
  induction 1 as [|page t ps texts Hp _ IH]; intros self.
  - cbn [extract_loop map List.concat]. rewrite app_nil_r.
    destruct self; reflexivity.
  - cbn [extract_loop map List.concat]. rewrite Hp. cbn [rbind].
    rewrite IH, set_text_set_text. cbn [text set_text].
    now rewrite <- app_assoc.
Qed.

(** A page that cannot be read aborts the extraction with its exception. *)
Lemma extract_loop_raises (before after : list Page) (page : Page)
  (texts : list str) (e : exn) :
  Forall2 (fun page t => page_extract_text page = Ok t) before texts ->
  page_extract_text page = Raise e ->
  forall self, extract_loop self (before ++ page :: after) = Raise e.
Proof.
  induction 1 as [|p t ps ts Hp _ IH]; intros Hpage self.
  - cbn [app extract_loop]. now rewrite Hpage.
  - cbn [app extract_loop]. rewrite Hp. cbn [rbind]. now apply IH.
Qed.

End Extraction.

(** C7. When the pages of the document have the texts [texts], in page order,
    [extract_text] returns every text followed by the newline character
    U+000A, concatenated in that order (so the last page's text is followed
    by a newline too), and leaves that string in [self.text]. *)
Theorem extract_text_concatenates {C : Collaborators}
  (self : PDFProcessor) (texts : list str) :
  Forall2 (fun page t => page_extract_text page = Ok t)
    (pages (reader self)) texts ->
  let full := List.concat (map (fun t => t ++ [10%N]) texts) in
  extract_text self = Ok (full, set_text self full).
Proof.
  intros H full. unfold extract_text.
  rewrite (extract_loop_all _ _ H). cbn [rbind text set_text].
  reflexivity.
Qed.

Lemma extract_text_concatenates_witness :
  let self := @mkProcessor (fake_collaborators two_pages)
                (lit "a.pdf") two_pages [] [] None in
  let full := lit "Hello world." ++ [10%N] ++ lit "This is a test." ++ [10%N] in
  @extract_text (fake_collaborators two_pages) self
  = Ok (full, @set_text (fake_collaborators two_pages) self full).
Proof.
  apply (@extract_text_concatenates (fake_collaborators two_pages)
           (@mkProcessor (fake_collaborators two_pages)
              (lit "a.pdf") two_pages [] [] None)
           [lit "Hello world."; lit "This is a test."]).
  repeat constructor.
Defined.

(** ** The pipeline *)

Ltac run_pipeline :=
  unfold process_pdf_and_store_in_chroma, try_except_Exception, pipeline_body,
    generate_embeddings, init, bind, call, print, lift, ret, after;
  repeat (cbn [world stdout chunks set_chunks set_embeddings];
          match goal with
          | H : ?f = _ |- context [?f] => rewrite H
          end);
  cbn [world stdout chunks set_chunks set_embeddings].

(** C8, as amended.  When a stage of [process_pdf_and_store_in_chroma]
    (opening the document, extracting its text, chunking, loading the model,
    encoding, opening the store, getting the collection, the upsert) raises
    an instance [e] of [Exception], the function catches it and prints the
    line made of U+26A0, U+FE0F, [" Error: "] and [str(e)]; if that [print]
    returns, the function returns [(None, None)] and does not raise. *)
Theorem process_contains_errors {C : Collaborators}
  (path db_path name : str) (m m' : machine) (e : exn) (w' : World) :
  stage_raises path db_path name m e m' ->
  isinstance_Exception e = true ->
  console_write ([9888%N; 65039%N] ++ lit " Error: " ++ exn_str e) (world m')
  = (Ok tt, w') ->
  process_pdf_and_store_in_chroma path db_path name m
  = (Ok (None, None),
     mkMachine w'
       (stdout m' ++ [[9888%N; 65039%N] ++ lit " Error: " ++ exn_str e])).
Proof.
  intros Hstage Hexc Hprint. change (_ ++ _ ++ exn_str e) with (msg_error e) in *.
  destruct Hstage; unfold after in Hprint; cbn [world] in Hprint;
    run_pipeline;
    repeat (cbn [world stdout]; first [rewrite Hexc | rewrite Hprint]);
    rewrite <- ?app_assoc; reflexivity.
Qed.

Lemma process_contains_errors_witness :
  let C := fake_collaborators two_pages in
  @process_pdf_and_store_in_chroma C [] (lit "./chroma_db")
    (lit "pdf_collection") (@mkMachine C [] [])
  = (Ok (None, None),
     @mkMachine C []
       ([] ++ [[9888%N; 65039%N] ++ lit " Error: "
               ++ exn_str file_not_found])).
Proof.
  apply (@process_contains_errors (fake_collaborators two_pages)
           [] (lit "./chroma_db") (lit "pdf_collection")
           (@mkMachine (fake_collaborators two_pages) [] [])
           (@mkMachine (fake_collaborators two_pages) [] [])
           file_not_found []).
  - apply (@construction_raises (fake_collaborators two_pages)). reflexivity.
  - reflexivity.
  - reflexivity.
Defined.

(** C8, as stated, fails.  On a console with the encoding latin-1 the
    document cannot be opened, [FileNotFoundError] (an instance of
    [Exception]) is caught, and the [print] of the handler raises
    [UnicodeEncodeError] on U+26A0: that exception, an instance of
    [Exception] too, reaches the caller and [(None, None)] is not returned.
    And an exception that is not an instance of [Exception], raised while a
    page is read, is not caught at all. *)
Lemma process_error_escapes :
  (let C := fake_collaborators_latin1 two_pages in
   let m := @mkMachine C [] [] in
   @stage_raises C [] (lit "./chroma_db") (lit "pdf_collection") m
     file_not_found m
   /\ isinstance_Exception file_not_found = true
   /\ @process_pdf_and_store_in_chroma C [] (lit "./chroma_db")
        (lit "pdf_collection") m
      = (Raise unicode_encode_error, m)
   /\ isinstance_Exception unicode_encode_error = true)
  /\ (let C := fake_collaborators [Raise keyboard_interrupt] in
      let m := @mkMachine C [] [] in
      @stage_raises C (lit "a.pdf") (lit "./chroma_db") (lit "pdf_collection")
        m keyboard_interrupt (@mkMachine C [] [msg_extracting])
      /\ @process_pdf_and_store_in_chroma C (lit "a.pdf") (lit "./chroma_db")
           (lit "pdf_collection") m
         = (Raise keyboard_interrupt, @mkMachine C [] [msg_extracting])).
Proof.
  split; [split; [|split; [|split]] | split].
  - apply (@construction_raises (fake_collaborators_latin1 two_pages)).
    reflexivity.
  - reflexivity.
  - vm_compute. reflexivity.
  - reflexivity.
  - eapply (@extraction_raises
              (fake_collaborators [Raise keyboard_interrupt]));
      reflexivity.
  - vm_compute. reflexivity.
Qed.

(** What is not an instance of [Exception] ([KeyboardInterrupt], ...) is not
    caught by [except Exception]: it reaches the caller. *)
Lemma process_propagates_non_exceptions {C : Collaborators}
  (path db_path name : str) (m m' : machine) (e : exn) :
  stage_raises path db_path name m e m' ->
  isinstance_Exception e = false ->
  process_pdf_and_store_in_chroma path db_path name m = (Raise e, m').
Proof.
  intros Hstage Hexc.
  destruct Hstage; run_pipeline; rewrite ?Hexc;
    cbn [world stdout]; rewrite <- ?app_assoc; reflexivity.
Qed.

(** A page that cannot be read: nothing is stored and [(None, None)] is
    returned. *)
Example process_unreadable_page :
  let C := fake_collaborators
             [Ok (lit "Hello world."); Raise file_not_found] in
  @process_pdf_and_store_in_chroma C (lit "a.pdf") (lit "./chroma_db")
    (lit "pdf_collection") (@mkMachine C [] [])
  = (Ok (None, None),
     @mkMachine C [] [msg_extracting; msg_error file_not_found]).
Proof. vm_compute. reflexivity. Qed.

(** A run without failure: both chunks are stored under their ids. *)
Example process_two_pages :
  let C := fake_collaborators two_pages in
  let out := @process_pdf_and_store_in_chroma C (lit "a.pdf")
               (lit "./chroma_db") (lit "pdf_collection") (@mkMachine C [] []) in
  world (snd out)
  = [(lit "chunk_0", lit "Hello world." ++ newline ++ lit "This is a test.")]
  /\ last (stdout (snd out)) []
     = [9989%N] ++ lit " Stored 1 chunks in local DB at: ./chroma_db".
Proof. vm_compute. split; reflexivity. Qed.

(** * Further properties of the chunker *)

(** ** Degenerate parameters *)

(** A negative [chunk_size] makes every sentence oversized while
    [range(0, len(sentence), chunk_size)] is empty: the loop keeps nothing. *)
Lemma pack_loop_negative (chunk_size : Z) (l : list str) :
  chunk_size < 0 ->
  pack_loop chunk_size (mkPack [] []) l = Ok (mkPack [] []).
Proof.
  intros H. induction l as [|s l IH]; [reflexivity|].
  cbn [pack_loop]. unfold pack_step, estimated_length, flush, slices, py_range.
  cbn [current_chunk initial_chunks truthy]. change (len (@nil char)) with 0.
  pose proof (len_nonneg s) as Hs.
  destruct (0 + len s + 1 <=? chunk_size) eqn:E1; [apply Z.leb_le in E1; lia|].
  destruct (len s >? chunk_size) eqn:E2;
    [|rewrite Z.gtb_ltb in E2; apply Z.ltb_ge in E2; lia].
  destruct (chunk_size =? 0) eqn:E3; [apply Z.eqb_eq in E3; lia|].
  unfold range_length.
  destruct (0 <? chunk_size) eqn:E4; [apply Z.ltb_lt in E4; lia|].
  destruct (len s <? 0) eqn:E5; [apply Z.ltb_lt in E5; lia|].
  cbn [seq map rbind app]. exact IH.
Qed.

(** With a negative [chunk_size] the call returns the empty list for every
    text: nothing is raised and the whole text is dropped. *)
Theorem split_text_smart_negative_chunk_size
  (text : option str) (chunk_size overlap : Z) :
  chunk_size < 0 -> split_text_smart text chunk_size overlap = Ok [].
Proof.
  intros H. unfold split_text_smart.
  destruct text as [[|c t]|]; try reflexivity.
  unfold initial_chunks_of. rewrite pack_loop_negative by exact H.
  reflexivity.
Qed.

Lemma split_text_smart_negative_chunk_size_witness :
  split_text_smart (Some (lit "Hello world. This is a test.")) (-1) 50 = Ok [].
Proof.
  apply (split_text_smart_negative_chunk_size
           (Some (lit "Hello world. This is a test.")) (-1) 50).
  reflexivity.
Defined.

(** A text of whitespace only has one sentence, the empty one, and gives no
    chunk, whatever [chunk_size] and [overlap] are (also 0 and below). *)
Theorem split_text_smart_blank (text : str) (chunk_size overlap : Z) :
  strip text = [] -> split_text_smart (Some text) chunk_size overlap = Ok [].
Proof.
  intros H. unfold split_text_smart. destruct text as [|c t]; [reflexivity|].
  unfold initial_chunks_of, sentences_of. rewrite H.
  cbn [re_split re_split_from pack_loop].
  unfold pack_step, estimated_length, flush, slices, py_range.
  cbn [current_chunk initial_chunks truthy]. change (len (@nil char)) with 0.
  destruct (0 + 0 + 1 <=? chunk_size); [reflexivity|].
  destruct (0 >? chunk_size) eqn:E2; [|reflexivity].
  rewrite Z.gtb_ltb in E2. apply Z.ltb_lt in E2.
  destruct (chunk_size =? 0) eqn:E3; [apply Z.eqb_eq in E3; lia|].
  unfold range_length.
  destruct (0 <? chunk_size) eqn:E4; [apply Z.ltb_lt in E4; lia|].
  reflexivity.
Qed.

Lemma split_text_smart_blank_witness :
  split_text_smart (Some [32%N; 10%N; 9%N; 32%N]) 0 50 = Ok [].
Proof.
  apply (split_text_smart_blank [32%N; 10%N; 9%N; 32%N] 0 50). reflexivity.
Defined.

(** ** Chunk sizes *)

Lemma lstrip_length (s : str) : (List.length (lstrip s) <= List.length s)%nat.
Proof.
  induction s as [|c s IH]; cbn [lstrip List.length]; [lia|].
  destruct (is_whitespace c); cbn [List.length]; lia.
Qed.

Lemma rstrip_length (s : str) : (List.length (rstrip s) <= List.length s)%nat.
Proof.
  induction s as [|c s IH]; cbn [rstrip List.length]; [lia|].
  destruct (rstrip s) as [|r rs].
  - destruct (is_whitespace c); cbn [List.length]; lia.
  - cbn [List.length] in *. lia.
Qed.

Lemma strip_len (s : str) : len (strip s) <= len s.
Proof.
  unfold len, strip.
  pose proof (rstrip_length (lstrip s)). pose proof (lstrip_length s). lia.
Qed.

Lemma fixed_width_bound (n : nat) (l : list str) :
  fixed_width n l -> Forall (fun p => (List.length p <= n)%nat) l.
Proof.
  induction l as [|p l IH]; intros H; constructor.
  - cbn [fixed_width] in H. destruct l; lia.
  - apply IH. cbn [fixed_width] in H. destruct l; [exact I | tauto].
Qed.

Lemma pack_step_bounded (chunk_size : Z) (st st' : pack_state) (s : str) :
  0 < chunk_size ->
  Forall (fun c => len c <= chunk_size) (initial_chunks st) ->
  len (current_chunk st) <= chunk_size ->
  pack_step chunk_size st s = Ok st' ->
  Forall (fun c => len c <= chunk_size) (initial_chunks st')
  /\ len (current_chunk st') <= chunk_size.
Proof.
  intros Hcs Hic Hcur. unfold pack_step, estimated_length.
  assert (Hflush : Forall (fun c => len c <= chunk_size) (flush st)).
  { unfold flush. destruct (truthy _); [|exact Hic].
    apply Forall_app. split; [exact Hic|]. constructor; [|constructor].
    pose proof (strip_len (current_chunk st)). lia. }
  destruct (_ <=? _) eqn:E1.
  - apply Z.leb_le in E1. intros [= <-]. cbn [initial_chunks current_chunk].
    split; [exact Hic|].
    unfold len in *. rewrite !length_app.
    destruct (truthy (current_chunk st)); cbn [lit List.length map
      list_ascii_of_string]; lia.
  - destruct (_ >? _) eqn:E2.
    + rewrite slices_chop by exact Hcs. cbn [rbind]. intros [= <-].
      cbn [initial_chunks current_chunk]. split; [|unfold len; cbn; lia].
      apply Forall_app. split; [exact Hflush|].
      apply Forall_map.
      pose proof (chop_fuel_fixed_width (Z.to_nat chunk_size)
                    (List.length s) ltac:(lia) s (le_n _)) as Hw.
      apply fixed_width_bound in Hw. fold (chop (Z.to_nat chunk_size) s) in Hw.
      eapply Forall_impl; [|exact Hw]. cbn beta. intros p Hp.
      pose proof (strip_len p). unfold len in *. lia.
    + rewrite Z.gtb_ltb in E2. apply Z.ltb_ge in E2. intros [= <-].
      cbn [initial_chunks current_chunk]. split; assumption.
Qed.

Lemma pack_loop_bounded (chunk_size : Z) (l : list str) :
  0 < chunk_size ->
  forall st st',
  Forall (fun c => len c <= chunk_size) (initial_chunks st) ->
  len (current_chunk st) <= chunk_size ->
  pack_loop chunk_size st l = Ok st' ->
  Forall (fun c => len c <= chunk_size) (initial_chunks st')
  /\ len (current_chunk st') <= chunk_size.
Proof.
  intros Hcs. induction l as [|s l IH]; intros st st' Hic Hcur; cbn [pack_loop].
  - intros [= <-]. split; assumption.
  - destruct (pack_step chunk_size st s) as [st1|e] eqn:E; cbn [rbind];
      [|discriminate].
    destruct (pack_step_bounded _ _ _ _ Hcs Hic Hcur E) as [H1 H2].
    now apply IH.
Qed.

Lemma initial_chunks_len_le (text : str) (chunk_size : Z) (initial : list str) :
  0 < chunk_size ->
  initial_chunks_of text chunk_size = Ok initial ->
  Forall (fun c => len c <= chunk_size) initial.
Proof.
  intros Hcs. unfold initial_chunks_of.
  destruct (pack_loop _ _ _) as [st|e] eqn:E; cbn [rbind]; [|discriminate].
  intros [= <-].
  destruct (pack_loop_bounded chunk_size (sentences_of text) Hcs
              (mkPack [] []) st) as [H1 H2];
    [constructor | unfold len; cbn; lia | exact E |].
  unfold flush. destruct (truthy _); [|exact H1].
  apply Forall_app. split; [exact H1|]. constructor; [|constructor].
  pose proof (strip_len (current_chunk st)). lia.
Qed.

(** With [chunk_size > 0] every initial chunk has at most [chunk_size]
    characters and no whitespace at either end. *)
Theorem initial_chunks_bounded (text : str) (chunk_size : Z) (initial : list str) :
  0 < chunk_size ->
  initial_chunks_of text chunk_size = Ok initial ->
  Forall (fun c => len c <= chunk_size /\ strip c = c) initial.
Proof.
  intros Hcs Hi.
  pose proof (initial_chunks_len_le _ _ _ Hcs Hi) as Hl.
  pose proof (initial_chunks_stripped _ _ _ Hi) as Hs.
  unfold all_stripped in Hs. rewrite Forall_forall in *.
  intros c Hc. split; [apply Hl | apply Hs]; exact Hc.
Qed.

Lemma initial_chunks_bounded_witness :
  Forall (fun c => len c <= 15 /\ strip c = c)
    [lit "Hello world."; lit "This is a test."].
Proof.
  apply (initial_chunks_bounded (lit "Hello world. This is a test.") 15).
  - reflexivity.
  - vm_compute. reflexivity.
Defined.

(** ** The overlap pass, chunk by chunk *)

Lemma stitch_from_length (overlap : Z) (initial : list str) :
  forall prev,
  List.length (stitch_from overlap prev initial) = List.length initial.
Proof.
  induction initial as [|c l IH]; intros prev; cbn [stitch_from List.length];
    [reflexivity | now rewrite IH].
Qed.

Lemma stitch_from_nth (overlap : Z) (initial : list str) :
  forall prev i,
  nth_error (stitch_from overlap prev initial) i
  = match nth_error initial i with
    | None => None
    | Some c =>
        Some (stitch_with overlap
                match i with
                | O => prev
                | S j => nth_error initial j
                end c)
    end.
Proof.
  induction initial as [|c l IH]; intros prev i.
  - destruct i; reflexivity.
  - destruct i as [|i]; cbn [stitch_from nth_error]; [reflexivity|].
    rewrite IH. destruct (nth_error l i) as [c'|] eqn:E; [|reflexivity].
    destruct i; reflexivity.
Qed.

(** The overlap pass cannot raise, whatever [overlap] is; it returns as many
    chunks as there are initial chunks, and the first one is the first initial
    chunk. *)
Theorem stitching_keeps_count
  (text : str) (chunk_size overlap : Z) (initial : list str) :
  text <> [] ->
  initial_chunks_of text chunk_size = Ok initial ->
  exists final,
    split_text_smart (Some text) chunk_size overlap = Ok final
    /\ List.length final = List.length initial
    /\ hd_error final = hd_error initial.
Proof.
  intros Ht Hi. exists (stitch_from overlap None initial).
  unfold split_text_smart. destruct text as [|c t]; [congruence|].
  rewrite Hi. cbn [rbind]. rewrite add_overlaps_stitch_from.
  split; [reflexivity|]. split; [apply stitch_from_length|].
  pose proof (initial_chunks_stripped _ _ _ Hi) as Hs.
  destruct initial as [|c0 l]; [reflexivity|].
  inversion Hs as [|? ? Hc _]; subst.
  cbn [stitch_from stitch_with hd_error]. now rewrite Hc.
Qed.

Lemma stitching_keeps_count_witness :
  exists final,
    split_text_smart (Some (lit "Hello world. This is a test.")) 15 (-3)
    = Ok final
    /\ List.length final
       = List.length [lit "Hello world."; lit "This is a test."]
    /\ hd_error final = hd_error [lit "Hello world."; lit "This is a test."].
Proof.
  apply (stitching_keeps_count (lit "Hello world. This is a test.") 15 (-3)
           [lit "Hello world."; lit "This is a test."]).
  - discriminate.
  - vm_compute. reflexivity.
Defined.

Lemma startswith_nil (s : str) : startswith s [] = true.
Proof. destruct s; reflexivity. Qed.

Lemma startswith_app (a r : str) : startswith (a ++ r) a = true.
Proof.
  induction a as [|c a IH]; [apply startswith_nil|].
  cbn [app startswith]. now rewrite N.eqb_refl, IH.
Qed.

Lemma rstrip_nonempty_fixed (c : char) (a : str) :
  rstrip (c :: a) = c :: a -> a <> [] -> rstrip a = a.
Proof.
  cbn [rstrip]. destruct (rstrip a) as [|r rs] eqn:E.
  - destruct (is_whitespace c); intros H Ha; destruct a; congruence.
  - intros [= H] _. exact H.
Qed.

Lemma rstrip_single (c : char) : rstrip [c] = [c] -> is_whitespace c = false.
Proof. cbn [rstrip]. destruct (is_whitespace c); [discriminate | reflexivity]. Qed.

(** Stripping the right end of [a ++ b] keeps a prefix [a] that ends with a
    character other than whitespace. *)
Lemma rstrip_app_keeps (a b : str) :
  rstrip a = a -> a <> [] -> exists r, rstrip (a ++ b) = a ++ r.
Proof.
  induction a as [|c a IH]; intros Hfix Hne; [congruence|].
  destruct a as [|c' a'].
  - apply rstrip_single in Hfix. cbn [app].
    rewrite (rstrip_cons_keep _ _ Hfix). eauto.
  - destruct IH as [r Hr];
      [eapply rstrip_nonempty_fixed; [exact Hfix | discriminate]
      | discriminate |].
    cbn [app rstrip] in *. rewrite Hr. eauto.
Qed.

Lemma strip_app_keeps (y b : str) :
  strip y <> [] -> exists r, strip (strip y ++ b) = strip y ++ r.
Proof.
  intros Hne. unfold strip at 1.
  assert (Hl : lstrip (strip y ++ b) = strip y ++ b).
  { apply lstrip_fixed. pose proof (strip_head y) as Hd.
    destruct (strip y); [congruence | exact Hd]. }
  rewrite Hl. apply rstrip_app_keeps; [|exact Hne].
  unfold strip. apply rstrip_idem.
Qed.

(** A stitched chunk starts with the overlap text it was stitched with. *)
Lemma stitch_with_starts (overlap : Z) (prev chunk : str) :
  strip chunk = chunk ->
  startswith (stitch_with overlap (Some prev) chunk)
    (overlap_text prev overlap) = true.
Proof.
  intros Hc. cbn [stitch_with].
  destruct (startswith chunk (overlap_text prev overlap)) eqn:E; cbn [negb].
  - now rewrite Hc.
  - unfold overlap_text in *.
    destruct (strip_app_keeps (py_slice prev (- overlap) None)
                (lit " " ++ chunk)) as [r ->].
    + intros Hnil. rewrite Hnil, startswith_nil in E. discriminate.
    + apply startswith_app.
Qed.

(** The overlap property, for every [chunk_size] and [overlap] with which the
    call returns: each returned chunk after the first starts with the overlap
    text taken from the initial chunk before it. *)
Theorem overlap_property
  (text : str) (chunk_size overlap : Z) (initial final : list str)
  (i : nat) (prev out : str) :
  initial_chunks_of text chunk_size = Ok initial ->
  split_text_smart (Some text) chunk_size overlap = Ok final ->
  nth_error initial i = Some prev ->
  nth_error final (S i) = Some out ->
  startswith out (overlap_text prev overlap) = true.
Proof.
  intros Hi Hf Hp Ho. unfold split_text_smart in Hf.
  destruct text as [|c t].
  - injection Hf as <-. discriminate.
  - rewrite Hi in Hf. cbn [rbind] in Hf.
    rewrite add_overlaps_stitch_from in Hf. injection Hf as <-.
    rewrite stitch_from_nth in Ho.
    destruct (nth_error initial (S i)) as [chunk|] eqn:E; [|discriminate].
    rewrite Hp in Ho. injection Ho as <-.
    apply stitch_with_starts.
    pose proof (initial_chunks_stripped _ _ _ Hi) as Hs.
    unfold all_stripped in Hs. rewrite Forall_forall in Hs.
    apply Hs. eapply nth_error_In. exact E.
Qed.

Lemma overlap_property_witness :
  startswith (lit "orld. This is a test.")
    (overlap_text (lit "Hello world.") 5) = true.
Proof.
  apply (overlap_property (lit "Hello world. This is a test.") 15 5
           [lit "Hello world."; lit "This is a test."]
           [lit "Hello world."; lit "orld. This is a test."] 0
           (lit "Hello world.") (lit "orld. This is a test."));
    vm_compute; reflexivity.
Defined.

Lemma trailing_length (n : nat) (s : str) :
  List.length (trailing n s) = Nat.min n (List.length s).
Proof. unfold trailing. rewrite length_skipn. lia. Qed.

Lemma overlap_text_len (prev : str) (overlap : Z) :
  0 < overlap -> len (overlap_text prev overlap) <= Z.min overlap (len prev).
Proof.
  intros H. unfold overlap_text. rewrite py_slice_trailing by exact H.
  pose proof (strip_len (trailing (Z.to_nat overlap) prev)) as Hs.
  unfold len in *. rewrite trailing_length in Hs. lia.
Qed.

Lemma stitch_with_len (overlap bound : Z) (prev : option str) (chunk : str) :
  0 < overlap ->
  len chunk <= bound ->
  match prev with Some p => len p <= bound | None => True end ->
  len (stitch_with overlap prev chunk) <= bound + Z.min overlap bound + 1.
Proof.
  intros Ho Hc Hp. pose proof (strip_len chunk) as Hsc.
  pose proof (len_nonneg chunk) as Hn0.
  destruct prev as [p|]; cbn [stitch_with]; [|lia].
  pose proof (overlap_text_len p overlap Ho) as Hov.
  destruct (negb _); [|lia].
  pose proof (strip_len (overlap_text p overlap ++ lit " " ++ chunk)) as Hs.
  unfold len in *. rewrite !length_app in Hs.
  change (List.length (lit " ")) with 1%nat in Hs. lia.
Qed.

(** With [chunk_size > 0] and [overlap > 0] no returned chunk is longer than
    [chunk_size + min(overlap, chunk_size) + 1]: a chunk of at most
    [chunk_size] characters, the overlap text and the joining space. *)
Theorem final_chunks_bounded
  (text : option str) (chunk_size overlap : Z) (final : list str) :
  0 < chunk_size -> 0 < overlap ->
  split_text_smart text chunk_size overlap = Ok final ->
  Forall (fun c => len c <= chunk_size + Z.min overlap chunk_size + 1) final.
Proof.
  intros Hcs Hov. unfold split_text_smart.
  destruct text as [[|c0 t]|]; try (intros [= <-]; constructor).
  destruct (initial_chunks_of (c0 :: t) chunk_size) as [initial|e] eqn:Hi;
    cbn [rbind]; [|discriminate].
  rewrite add_overlaps_stitch_from. intros [= <-].
  pose proof (initial_chunks_len_le _ _ _ Hcs Hi) as Hb.
  rewrite Forall_forall in Hb.
  apply Forall_forall. intros out Hin.
  destruct (In_nth_error _ _ Hin) as [i Hn].
  rewrite stitch_from_nth in Hn.
  destruct (nth_error initial i) as [chunk|] eqn:E; [|discriminate].
  injection Hn as <-.
  apply stitch_with_len;
    [exact Hov | apply Hb; eapply nth_error_In; exact E |].
  destruct i as [|j]; [exact I|].
  destruct (nth_error initial j) as [p|] eqn:Ej; [|exact I].
  apply Hb. eapply nth_error_In. exact Ej.
Qed.

Lemma final_chunks_bounded_witness :
  Forall (fun c => len c <= 15 + Z.min 5 15 + 1)
    [lit "Hello world."; lit "orld. This is a test."].
Proof.
  apply (final_chunks_bounded (Some (lit "Hello world. This is a test.")) 15 5);
    vm_compute; reflexivity.
Defined.

Lemma overlap_text_whole (prev : str) (overlap : Z) :
  0 < overlap -> len prev <= overlap -> strip prev = prev ->
  overlap_text prev overlap = prev.
Proof.
  intros Ho Hl Hs. unfold overlap_text. rewrite py_slice_trailing by exact Ho.
  unfold trailing, len in *.
  replace (List.length prev - Z.to_nat overlap)%nat with 0%nat by lia.
  exact Hs.
Qed.

(** With [overlap >= chunk_size > 0] the overlap text is the whole previous
    initial chunk: every returned chunk after the first is its initial chunk
    with the whole initial chunk before it and a space in front, unless it
    starts with that chunk. *)
Theorem overlap_at_least_chunk_size
  (text : str) (chunk_size overlap : Z) (initial final : list str)
  (i : nat) (prev chunk : str) :
  0 < chunk_size -> chunk_size <= overlap ->
  initial_chunks_of text chunk_size = Ok initial ->
  split_text_smart (Some text) chunk_size overlap = Ok final ->
  nth_error initial i = Some prev ->
  nth_error initial (S i) = Some chunk ->
  nth_error final (S i)
  = Some (if startswith chunk prev then chunk
          else strip (prev ++ lit " " ++ chunk)).
Proof.
  intros Hcs Hov Hi Hf Hp Hc. unfold split_text_smart in Hf.
  destruct text as [|c t].
  - exfalso. unfold initial_chunks_of, sentences_of in Hi.
    cbn [strip lstrip rstrip re_split re_split_from pack_loop] in Hi.
    unfold pack_step, estimated_length in Hi. cbn [current_chunk] in Hi.
    change (len (@nil char)) with 0 in Hi.
    replace (0 + 0 + 1 <=? chunk_size) with true in Hi
      by (symmetry; apply Z.leb_le; lia).
    cbn in Hi. injection Hi as <-. destruct i; discriminate.
  - rewrite Hi in Hf. cbn [rbind] in Hf.
    rewrite add_overlaps_stitch_from in Hf. injection Hf as <-.
    rewrite stitch_from_nth, Hc, Hp. cbn [stitch_with].
    pose proof (initial_chunks_stripped _ _ _ Hi) as Hs.
    unfold all_stripped in Hs. rewrite Forall_forall in Hs.
    pose proof (initial_chunks_len_le _ _ _ Hcs Hi) as Hb.
    rewrite Forall_forall in Hb.
    assert (Hpin : In prev initial) by (eapply nth_error_In; exact Hp).
    assert (Hcin : In chunk initial) by (eapply nth_error_In; exact Hc).
    rewrite overlap_text_whole;
      [|lia | specialize (Hb _ Hpin); cbn beta in Hb; lia | now apply Hs].
    destruct (startswith chunk prev); cbn [negb]; [|reflexivity].
    now rewrite (Hs _ Hcin).
Qed.

Lemma overlap_at_least_chunk_size_witness :
  nth_error [lit "Hello world."; lit "Hello world. This is a test."] 1
  = Some (if startswith (lit "This is a test.") (lit "Hello world.")
          then lit "This is a test."
          else strip (lit "Hello world." ++ lit " " ++ lit "This is a test.")).
Proof.
  apply (overlap_at_least_chunk_size (lit "Hello world. This is a test.")
           15 20 [lit "Hello world."; lit "This is a test."]
           [lit "Hello world."; lit "Hello world. This is a test."] 0
           (lit "Hello world.") (lit "This is a test."));
    vm_compute; solve [reflexivity | discriminate].
Defined.

(** ** Nothing but whitespace is lost before stitching *)

Lemma visible_app (a b : str) : visible (a ++ b) = visible a ++ visible b.
Proof. apply filter_app. Qed.

Lemma visible_concat (l : list str) :
  visible (List.concat l) = List.concat (map visible l).
Proof.
  induction l as [|p l IH]; [reflexivity|].
  cbn [List.concat map]. now rewrite visible_app, IH.
Qed.

Lemma visible_lstrip (s : str) : visible (lstrip s) = visible s.
Proof.
  induction s as [|c s IH]; [reflexivity|].
  cbn [lstrip]. destruct (is_whitespace c) eqn:E; [|reflexivity].
  rewrite IH. unfold visible. cbn [filter]. now rewrite E.
Qed.

Lemma visible_rstrip (s : str) : visible (rstrip s) = visible s.
Proof.
  induction s as [|c s IH]; [reflexivity|].
  cbn [rstrip]. destruct (rstrip s) as [|r rs].
  - unfold visible in *. cbn [filter] in *. rewrite <- IH.
    destruct (is_whitespace c) eqn:E; cbn [filter negb]; rewrite ?E;
      reflexivity.
  - unfold visible in *. cbn [filter] in *. rewrite <- IH.
    reflexivity.
Qed.

Lemma visible_strip (s : str) : visible (strip s) = visible s.
Proof. unfold strip. now rewrite visible_rstrip, visible_lstrip. Qed.

Lemma visible_map_strip (l : list str) :
  visible (List.concat (map strip l)) = visible (List.concat l).
Proof.
  rewrite !visible_concat, map_map. f_equal.
  apply map_ext. intros p. apply visible_strip.
Qed.

Lemma concat_cons_hd (c : char) (l : list str) :
  List.concat (cons_hd c l) = c :: List.concat l.
Proof. destruct l; reflexivity. Qed.

(** The sentences hold every character of the text but the separating
    spaces. *)
Lemma visible_re_split (s : str) :
  forall prev in_sep,
  visible (List.concat (re_split_from prev in_sep s)) = visible s.
Proof.
  induction s as [|c s IH]; intros prev in_sep; [reflexivity|].
  cbn [re_split_from].
  assert (Hkeep : visible (List.concat (cons_hd c (re_split_from (Some c) false s)))
                  = visible (c :: s)).
  { rewrite concat_cons_hd. unfold visible in *. cbn [filter].
    now rewrite IH. }
  destruct (is_space c) eqn:E; [|exact Hkeep].
  assert (Hdrop : visible (c :: s) = visible s).
  { unfold visible. cbn [filter]. now rewrite (whitespace_space _ E). }
  destruct in_sep; [rewrite Hdrop; apply IH|].
  destruct (is_terminator prev); [|exact Hkeep].
  cbn [List.concat app]. rewrite Hdrop. apply IH.
Qed.

(** What the loop holds: the visible characters of the chunks made so far
    and of the chunk being filled. *)
Lemma flush_visible (st : pack_state) :
  visible (List.concat (flush st))
  = visible (List.concat (initial_chunks st)) ++ visible (current_chunk st).
Proof.
  unfold flush. destruct (current_chunk st) as [|c cur] eqn:E; cbn [truthy].
  - now rewrite app_nil_r.
  - rewrite concat_app, visible_app. cbn [List.concat].
    now rewrite app_nil_r, visible_strip.
Qed.

Lemma pack_step_visible (chunk_size : Z) (st st' : pack_state) (s : str) :
  0 < chunk_size ->
  pack_step chunk_size st s = Ok st' ->
  visible (List.concat (flush st'))
  = visible (List.concat (flush st)) ++ visible s.
Proof.
  intros Hcs. unfold pack_step.
  destruct (_ <=? _).
  - intros [= <-]. rewrite !flush_visible. cbn [initial_chunks current_chunk].
    rewrite !visible_app, <- app_assoc. do 2 f_equal.
    destruct (truthy _); reflexivity.
  - destruct (_ >? _).
    + rewrite slices_chop by exact Hcs. cbn [rbind]. intros [= <-].
      unfold flush at 1. cbn [initial_chunks current_chunk truthy].
      rewrite concat_app, visible_app, visible_map_strip.
      unfold chop. now rewrite chop_fuel_concat by lia.
    + intros [= <-]. rewrite (flush_visible (mkPack _ _)). reflexivity.
Qed.

Lemma pack_loop_visible (chunk_size : Z) (l : list str) :
  0 < chunk_size ->
  forall st st',
  pack_loop chunk_size st l = Ok st' ->
  visible (List.concat (flush st'))
  = visible (List.concat (flush st)) ++ visible (List.concat l).
Proof.
  intros Hcs. induction l as [|s l IH]; intros st st'; cbn [pack_loop].
  - intros [= <-]. now rewrite app_nil_r.
  - destruct (pack_step chunk_size st s) as [st1|e] eqn:E; cbn [rbind];
      [|discriminate].
    intros H. rewrite (IH _ _ H), (pack_step_visible _ _ _ _ Hcs E).
    cbn [List.concat]. now rewrite visible_app, app_assoc.
Qed.

(** With [chunk_size > 0] the initial chunks, read one after the other, hold
    exactly the characters of the text that are not whitespace, in the order
    of the text: the chunker drops, adds and moves whitespace only. *)
Theorem initial_chunks_keep_text (text : str) (chunk_size : Z)
  (initial : list str) :
  0 < chunk_size ->
  initial_chunks_of text chunk_size = Ok initial ->
  visible (List.concat initial) = visible text.
Proof.
  intros Hcs. unfold initial_chunks_of.
  destruct (pack_loop _ _ _) as [st|e] eqn:E; cbn [rbind]; [|discriminate].
  intros [= <-]. rewrite (pack_loop_visible _ _ Hcs _ _ E).
  unfold sentences_of, re_split. rewrite visible_re_split, visible_strip.
  reflexivity.
Qed.

Lemma initial_chunks_keep_text_witness :
  visible (List.concat [lit "Hell"; lit "o wo"; lit "rld."; lit "Bye."])
  = visible (lit " Hello world.   Bye. ").
Proof.
  apply (initial_chunks_keep_text (lit " Hello world.   Bye. ") 4).
  - reflexivity.
  - vm_compute. reflexivity.
Defined.

(** ** A text of one sentence *)

(** A text whose only sentence is not empty and has at most [chunk_size]
    characters comes back as one chunk, that sentence stripped; this holds
    when the sentence has exactly [chunk_size] characters, although the
    length test of the loop fails for it. *)
Theorem single_sentence_one_chunk
  (text sentence : str) (chunk_size overlap : Z) :
  sentences_of text = [sentence] -> sentence <> [] ->
  len sentence <= chunk_size ->
  split_text_smart (Some text) chunk_size overlap = Ok [strip sentence].
Proof.
  intros Hs Hne Hlen. unfold split_text_smart.
  destruct text as [|c t].
  - injection Hs as <-. now elim Hne.
  - unfold initial_chunks_of. rewrite Hs. cbn [pack_loop].
    assert (Hstep : pack_step chunk_size (mkPack [] []) sentence
                    = Ok (mkPack [] sentence)).
    { unfold pack_step, estimated_length, flush.
      cbn [current_chunk initial_chunks truthy app].
      destruct (_ <=? _); [reflexivity|].
      destruct (len sentence >? chunk_size) eqn:E; [|reflexivity].
      rewrite Z.gtb_ltb in E. apply Z.ltb_lt in E. lia. }
    rewrite Hstep. cbn [rbind]. unfold flush. cbn [current_chunk initial_chunks].
    destruct sentence as [|s0 s]; [congruence|]. cbn [truthy app].
    rewrite add_overlaps_stitch_from. cbn [stitch_from stitch_with].
    now rewrite strip_idem.
Qed.

Lemma single_sentence_one_chunk_witness :
  split_text_smart (Some (lit " Stop. ")) 5 50 = Ok [strip (lit "Stop.")].
Proof.
  apply (single_sentence_one_chunk (lit " Stop. ") (lit "Stop.") 5 50).
  - reflexivity.
  - discriminate.
  - vm_compute. discriminate.
Defined.

(** ** The sentences *)

Lemma re_split_nonempty_pieces (s : str) :
  s <> [] -> is_space (last s 0%N) = false ->
  forall prev in_sep,
  match re_split_from prev in_sep s with
  | [] => False
  | p :: ps => (in_sep = true -> p <> []) /\ Forall (fun q => q <> []) ps
  end.
Proof.
  induction s as [|c s IH]; intros Hne Hlast prev in_sep; [congruence|].
  destruct s as [|c' s'].
  - cbn [last] in Hlast. cbn [re_split_from]. rewrite Hlast.
    cbn [cons_hd]. split; [discriminate | constructor].
  - assert (Hne' : c' :: s' <> []) by discriminate.
    change (last (c :: c' :: s') 0%N) with (last (c' :: s') 0%N) in Hlast.
    specialize (IH Hne' Hlast).
    assert (Hkeep :
      match cons_hd c (re_split_from (Some c) false (c' :: s')) with
      | [] => False
      | p :: ps => (in_sep = true -> p <> []) /\ Forall (fun q => q <> []) ps
      end).
    { specialize (IH (Some c) false).
      destruct (re_split_from (Some c) false (c' :: s')) as [|p ps];
        [contradiction|].
      cbn [cons_hd]. split; [discriminate | apply IH]. }
    remember (c' :: s') as rest. cbn [re_split_from].
    destruct (is_space c); [|exact Hkeep].
    destruct in_sep.
    + apply IH.
    + destruct (is_terminator prev); [|exact Hkeep].
      specialize (IH (Some c) true).
      destruct (re_split_from (Some c) true rest) as [|p ps]; [contradiction|].
      split; [discriminate|]. constructor; [now apply IH | apply IH].
Qed.

(** A text that is not blank has no empty sentence. *)
Theorem sentences_not_empty (text : str) :
  strip text <> [] -> Forall (fun s => s <> []) (sentences_of text).
Proof.
  intros H. unfold sentences_of, re_split.
  pose proof (strip_head text) as Hd.
  assert (Hl : is_whitespace (last (strip text) 0%N) = false).
  { unfold strip in *. now apply rstrip_last. }
  destruct (strip text) as [|c r] eqn:E; [congruence|].
  assert (Hc : is_space c = false).
  { destruct (is_space c) eqn:Ec; [|reflexivity].
    apply whitespace_space in Ec. congruence. }
  cbn [re_split_from]. rewrite Hc.
  destruct r as [|c' r'].
  - cbn. constructor; [discriminate | constructor].
  - assert (Hs : is_space (last (c' :: r') 0%N) = false).
    { change (last (c :: c' :: r') 0%N) with (last (c' :: r') 0%N) in Hl.
      destruct (is_space (last (c' :: r') 0%N)) eqn:Es; [|reflexivity].
      apply whitespace_space in Es. congruence. }
    pose proof (re_split_nonempty_pieces (c' :: r') ltac:(discriminate) Hs
                  (Some c) false) as Hp.
    destruct (re_split_from (Some c) false (c' :: r')) as [|p ps];
      [contradiction|].
    cbn [cons_hd]. constructor; [discriminate | apply Hp].
Qed.

Lemma sentences_not_empty_witness :
  Forall (fun s => s <> []) (sentences_of (lit " Hello world.   Bye! ")).
Proof.
  apply (sentences_not_empty (lit " Hello world.   Bye! ")).
  vm_compute. discriminate.
Defined.

Lemma has_boundary_weaken (p : str) (prev : option char) :
  has_boundary_from prev p = false -> has_boundary p = false.
Proof.
  destruct p as [|c p]; [reflexivity|].
  unfold has_boundary. cbn [has_boundary_from is_terminator andb orb].
  intros H. apply orb_false_iff in H. apply H.
Qed.

Lemma re_split_no_boundary (s : str) :
  forall prev in_sep,
  match re_split_from prev in_sep s with
  | [] => True
  | p :: ps =>
      has_boundary_from (if in_sep then Some 46%N else prev) p = false
      /\ Forall (fun q => has_boundary q = false) ps
  end.
Proof.
  induction s as [|c s IH]; intros prev in_sep.
  - cbn. split; [reflexivity | constructor].
  - cbn [re_split_from].
    assert (Hkeep : forall q,
      (is_terminator q && is_space c) = false ->
      match cons_hd c (re_split_from (Some c) false s) with
      | [] => True
      | p :: ps =>
          has_boundary_from q p = false
          /\ Forall (fun q => has_boundary q = false) ps
      end).
    { intros q Hq. specialize (IH (Some c) false).
      destruct (re_split_from (Some c) false s) as [|p ps];
        cbn [cons_hd has_boundary_from]; rewrite Hq; cbn [orb].
      - split; [reflexivity | constructor].
      - exact IH. }
    destruct (is_space c) eqn:E.
    + destruct in_sep.
      * specialize (IH (Some c) true). exact IH.
      * destruct (is_terminator prev) eqn:T.
        -- specialize (IH (Some c) true).
           destruct (re_split_from (Some c) true s) as [|p ps].
           ++ split; [reflexivity | constructor].
           ++ split; [reflexivity|].
              constructor; [|apply IH].
              eapply has_boundary_weaken. apply IH.
        -- apply Hkeep. now rewrite T.
    + apply Hkeep. now rewrite andb_false_r.
Qed.

(** No sentence has a boundary inside: wherever one of [.], [!], [?] is
    followed by a space in the stripped text, the text is cut. *)
Theorem sentences_have_no_boundary (text : str) :
  Forall (fun s => has_boundary s = false) (sentences_of text).
Proof.
  unfold sentences_of, re_split.
  pose proof (re_split_no_boundary (strip text) None false) as H.
  destruct (re_split_from None false (strip text)) as [|p ps];
    constructor; apply H.
Qed.

(** * Further properties of the extractor and of the pipeline *)

Section ExtractionMore.

Context {C : Collaborators}.

Lemma extract_loop_ok (ps : list Page) :
  forall self r,
  extract_loop self ps = Ok r ->
  exists texts,
    Forall2 (fun page t => page_extract_text page = Ok t) ps texts.
Proof.
  induction ps as [|page ps IH]; intros self r; cbn [extract_loop].
  - intros _. exists []. constructor.
  - destruct (page_extract_text page) as [t|e] eqn:E; cbn [rbind];
      [|discriminate].
    intros H. destruct (IH _ _ H) as [texts Ht].
    exists (t :: texts). now constructor.
Qed.

Lemma concat_newline_len (texts : list str) :
  len (List.concat (map (fun t => t ++ newline) texts))
  = fold_right (fun t n => len t + n) 0 texts + len texts.
Proof.
  induction texts as [|t texts IH]; [reflexivity|].
  cbn [map List.concat fold_right]. unfold len in *.
  rewrite !length_app. cbn [List.length newline]. lia.
Qed.

End ExtractionMore.

(** A page whose text cannot be extracted aborts [extract_text] with that
    page's exception, whatever the pages after it are: no text is returned
    for the pages before it. *)
Theorem extract_text_unreadable_page {C : Collaborators}
  (self : PDFProcessor) (before after : list Page) (page : Page)
  (texts : list str) (e : exn) :
  pages (reader self) = before ++ page :: after ->
  Forall2 (fun p t => page_extract_text p = Ok t) before texts ->
  page_extract_text page = Raise e ->
  extract_text self = Raise e.
Proof.
  intros Hp Hb He. unfold extract_text. rewrite Hp.
  now rewrite (extract_loop_raises before after page texts e Hb He).
Qed.

Lemma extract_text_unreadable_page_witness :
  let C := fake_collaborators broken_document in
  @extract_text C (@mkProcessor C (lit "a.pdf") broken_document [] [] None)
  = Raise file_not_found.
Proof.
  apply (@extract_text_unreadable_page (fake_collaborators broken_document)
           (@mkProcessor (fake_collaborators broken_document)
              (lit "a.pdf") broken_document [] [] None)
           [Ok (lit "Hello world.")] [Ok (lit "This is a test.")]
           (Raise file_not_found) [lit "Hello world."] file_not_found).
  - reflexivity.
  - repeat constructor.
  - reflexivity.
Defined.

(** [extract_text] starts from the empty string, not from [self.text]:
    called again on the processor it left, it returns the same text and
    leaves the same processor. *)
Theorem extract_text_again {C : Collaborators}
  (self self' : PDFProcessor) (t : str) :
  extract_text self = Ok (t, self') ->
  extract_text self' = Ok (t, self').
Proof.
  unfold extract_text.
  destruct (extract_loop (set_text self []) (pages (reader self)))
    as [r|e] eqn:E; cbn [rbind]; [|discriminate].
  intros [= <- <-].
  destruct (extract_loop_ok _ _ _ E) as [texts Ht].
  rewrite (extract_loop_all _ _ Ht) in E. injection E as <-.
  cbn [reader set_text text]. rewrite (extract_loop_all _ _ Ht).
  reflexivity.
Qed.

Lemma extract_text_again_witness :
  let C := fake_collaborators two_pages in
  let full := lit "Hello world." ++ newline ++ lit "This is a test." ++ newline in
  let self' := @mkProcessor C (lit "a.pdf") two_pages full [] None in
  @extract_text C self' = Ok (full, self').
Proof.
  apply (@extract_text_again (fake_collaborators two_pages)
           (@mkProcessor (fake_collaborators two_pages)
              (lit "a.pdf") two_pages (lit "stale") [] None)).
  reflexivity.
Defined.

(** The extracted text has one newline per page on top of the pages' texts:
    its length is the sum of their lengths plus [count_pages]. *)
Theorem extract_text_length {C : Collaborators}
  (self self' : PDFProcessor) (texts : list str) (t : str) :
  Forall2 (fun page p => page_extract_text page = Ok p)
    (pages (reader self)) texts ->
  extract_text self = Ok (t, self') ->
  len t = fold_right (fun p n => len p + n) 0 texts + count_pages self.
Proof.
  intros Ht. unfold extract_text. rewrite (extract_loop_all _ _ Ht).
  cbn [rbind text set_text app]. intros [= <- _].
  rewrite concat_newline_len. f_equal.
  unfold count_pages, len. now rewrite (Forall2_length Ht).
Qed.

Lemma extract_text_length_witness :
  let C := fake_collaborators two_pages in
  let self := @mkProcessor C (lit "a.pdf") two_pages [] [] None in
  let full := lit "Hello world." ++ newline ++ lit "This is a test." ++ newline in
  len full
  = fold_right (fun p n => len p + n) 0
      [lit "Hello world."; lit "This is a test."]
    + @count_pages C self.
Proof.
  apply (@extract_text_length (fake_collaborators two_pages)
           (@mkProcessor (fake_collaborators two_pages)
              (lit "a.pdf") two_pages [] [] None)
           (@mkProcessor (fake_collaborators two_pages)
              (lit "a.pdf") two_pages
              (lit "Hello world." ++ newline ++ lit "This is a test."
               ++ newline) [] None)
           [lit "Hello world."; lit "This is a test."]).
  - repeat constructor.
  - reflexivity.
Defined.

(** ** The ids of the stored records *)

Lemma lit_inj (a b : string) : lit a = lit b -> a = b.
Proof.
  intros H.
  rewrite <- (string_of_list_ascii_of_string a),
          <- (string_of_list_ascii_of_string b).
  f_equal.
  assert (Hinv : forall l, map ascii_of_N (map N_of_ascii l) = l).
  { intros l. rewrite map_map. rewrite <- (map_id l) at 2.
    apply map_ext. intros x. apply ascii_N_embedding. }
  rewrite <- (Hinv (list_ascii_of_string a)),
          <- (Hinv (list_ascii_of_string b)).
  unfold lit in H. now rewrite H.
Qed.

Lemma to_uint_not_nil (n : nat) : Nat.to_uint n <> Decimal.Nil.
Proof.
  intros H. pose proof (DecimalNat.Unsigned.to_of (Nat.to_uint n)) as T.
  rewrite DecimalNat.Unsigned.of_to, H in T. discriminate.
Qed.

Lemma str_of_nat_inj (a b : nat) : str_of_nat a = str_of_nat b -> a = b.
Proof.
  unfold str_of_nat. intros H. apply lit_inj in H.
  apply DecimalNat.Unsigned.to_uint_inj.
  pose proof (NilZero.usu _ (to_uint_not_nil a)) as Ha.
  pose proof (NilZero.usu _ (to_uint_not_nil b)) as Hb.
  rewrite H in Ha. congruence.
Qed.

Lemma NoDup_map_injective {A B} (f : A -> B) (l : list A) :
  (forall x y, f x = f y -> x = y) -> NoDup l -> NoDup (map f l).
Proof.
  intros Hinj. induction 1 as [|x l Hx _ IH]; cbn [map]; constructor;
    [|exact IH].
  intros Hin. apply in_map_iff in Hin. destruct Hin as (y & Hy & Hyl).
  apply Hinj in Hy. now subst.
Qed.

(** The ids made for [n] chunks are [n] strings, pairwise different, the one
    at position [i] being ["chunk_"] followed by [i] in decimal: no record of
    a run replaces another record of that run. *)
Theorem chunk_ids_distinct (n : nat) :
  List.length (chunk_ids n) = n
  /\ NoDup (chunk_ids n)
  /\ forall i, (i < n)%nat ->
       nth_error (chunk_ids n) i = Some (lit "chunk_" ++ str_of_nat i).
Proof.
  unfold chunk_ids. split; [|split].
  - now rewrite length_map, length_seq.
  - apply NoDup_map_injective; [|apply seq_NoDup].
    intros x y H. apply app_inv_head in H. now apply str_of_nat_inj.
  - intros i Hi. rewrite nth_error_map, nth_error_seq.
    destruct (Nat.ltb_spec i n); [reflexivity | lia].
Qed.

(** ** Runs of the pipeline *)

(** When [generate_embeddings] returns, the processor holds the extracted
    text, the chunks of that text and the embeddings it returns, and three
    lines have been printed. *)
Theorem generate_embeddings_state {C : Collaborators}
  (self self' : PDFProcessor) (model_name : str) (chunk_size overlap : Z)
  (m m' : machine) (emb : Embeddings) :
  generate_embeddings self model_name chunk_size overlap m
  = (Ok (emb, self'), m') ->
  extract_text self = Ok (text self', set_text self (text self'))
  /\ split_text_smart (Some (text self')) chunk_size overlap
     = Ok (chunks self')
  /\ embeddings self' = Some emb
  /\ pdf_path self' = pdf_path self
  /\ reader self' = reader self
  /\ stdout m'
     = stdout m ++ [msg_extracting; msg_splitting; msg_generating model_name].
Proof.
  unfold generate_embeddings, bind, call, print, lift, ret.
  cbn [world stdout]. intros H.
  destruct (console_write msg_extracting (world m)) as [[[]|e] wa];
    [|discriminate].
  cbn [world stdout] in H.
  destruct (extract_text self) as [[t p]|e] eqn:Ex; [|discriminate].
  cbn [world stdout] in H.
  destruct (console_write msg_splitting wa) as [[[]|e] wb]; [|discriminate].
  cbn [world stdout] in H.
  destruct (split_text_smart (Some t) chunk_size overlap) as [cs|e] eqn:Sp;
    [|discriminate].
  cbn [world stdout] in H.
  destruct (console_write (msg_generating model_name) wb) as [[[]|e] wc];
    [|discriminate].
  cbn [world stdout] in H.
  destruct (SentenceTransformer model_name wc) as [[model|e] w1];
    [|discriminate].
  cbn [world stdout] in H.
  destruct (encode model (chunks (set_chunks p cs)) w1) as [[emb0|e] w2];
    [|discriminate].
  injection H as <- <- <-.
  unfold extract_text in Ex.
  destruct (extract_loop (set_text self []) (pages (reader self)))
    as [r|e] eqn:E; cbn [rbind] in Ex; [|discriminate].
  injection Ex as <- <-.
  destruct (extract_loop_ok _ _ _ E) as [texts Ht].
  unfold extract_text. rewrite (extract_loop_all _ _ Ht) in *.
  injection E as <-.
  cbn [text chunks embeddings pdf_path reader set_text set_chunks
       set_embeddings stdout rbind app] in *.
  repeat split; try reflexivity; try assumption.
  now rewrite <- !app_assoc.
Qed.

Lemma generate_embeddings_state_witness :
  let C := fake_collaborators two_pages in
  let self := @mkProcessor C (lit "a.pdf") two_pages [] [] None in
  let full := lit "Hello world." ++ newline ++ lit "This is a test." ++ newline in
  let self' := @mkProcessor C (lit "a.pdf") two_pages full
                 [lit "Hello world." ++ newline ++ lit "This is a test."]
                 (Some [28]) in
  @extract_text C self
  = Ok (@text C self', @set_text C self (@text C self'))
  /\ split_text_smart (Some (@text C self')) 100 5 = Ok (@chunks C self')
  /\ @embeddings C self' = Some [28]
  /\ @pdf_path C self' = @pdf_path C self
  /\ @reader C self' = @reader C self
  /\ @stdout C (@mkMachine C []
                  [msg_extracting; msg_splitting; msg_generating (lit "m")])
     = @stdout C (@mkMachine C [] [])
       ++ [msg_extracting; msg_splitting; msg_generating (lit "m")].
Proof.
  apply (@generate_embeddings_state (fake_collaborators two_pages)
           (@mkProcessor (fake_collaborators two_pages)
              (lit "a.pdf") two_pages [] [] None)
           (@mkProcessor (fake_collaborators two_pages)
              (lit "a.pdf") two_pages
              (lit "Hello world." ++ newline ++ lit "This is a test."
               ++ newline)
              [lit "Hello world." ++ newline ++ lit "This is a test."]
              (Some [28]))
           (lit "m") 100 5
           (@mkMachine (fake_collaborators two_pages) [] [])
           (@mkMachine (fake_collaborators two_pages) []
              [msg_extracting; msg_splitting; msg_generating (lit "m")])
           [28]).
  vm_compute. reflexivity.
Defined.

(** When every call and every [print] returns, the pipeline hands to
    [upsert] the chunks of the extracted text with the ids [chunk_0],
    [chunk_1], ... and their embeddings, prints its six lines and returns the
    processor, holding those chunks and embeddings, with the collection. *)
Theorem process_stores_chunks {C : Collaborators}
  (path db_path name : str) (m : machine)
  (r : Reader) (w1 w2 w3 w4 w5 w6 : World) (t : str) (p1 : PDFProcessor)
  (cs : list str) (model : Model) (emb : Embeddings) (client : Client)
  (collection : Collection) (w1a w1b w1c w3a w5a w7 : World) :
  PdfReader path (world m) = (Ok r, w1) ->
  console_write msg_extracting w1 = (Ok tt, w1a) ->
  extract_text (mkProcessor path r [] [] None) = Ok (t, p1) ->
  console_write msg_splitting w1a = (Ok tt, w1b) ->
  split_text_smart (Some t) default_chunk_size default_overlap = Ok cs ->
  console_write (msg_generating default_model_name) w1b = (Ok tt, w1c) ->
  SentenceTransformer default_model_name w1c = (Ok model, w2) ->
  encode model cs w2 = (Ok emb, w3) ->
  console_write msg_initializing w3 = (Ok tt, w3a) ->
  PersistentClient db_path w3a = (Ok client, w4) ->
  get_or_create_collection client name w4 = (Ok collection, w5) ->
  console_write msg_adding w5 = (Ok tt, w5a) ->
  upsert collection (chunk_ids (List.length cs)) emb cs w5a = (Ok tt, w6) ->
  console_write (msg_stored (List.length cs) db_path) w6 = (Ok tt, w7) ->
  process_pdf_and_store_in_chroma path db_path name m
  = (Ok (Some (set_embeddings (set_chunks p1 cs) emb), Some collection),
     mkMachine w7
       (stdout m
        ++ [msg_extracting; msg_splitting; msg_generating default_model_name;
            msg_initializing; msg_adding;
            msg_stored (List.length cs) db_path])).
Proof.
  intros H1 P1 H2 P2 H3 P3 H4 H5 P4 H6 H7 P5 H8 P6.
  run_pipeline. rewrite <- !app_assoc. reflexivity.
Qed.

Lemma process_stores_chunks_witness :
  let C := fake_collaborators two_pages in
  let full := lit "Hello world." ++ newline ++ lit "This is a test." ++ newline in
  let cs := [lit "Hello world." ++ newline ++ lit "This is a test."] in
  @process_pdf_and_store_in_chroma C (lit "a.pdf") (lit "./chroma_db")
    (lit "pdf_collection") (@mkMachine C [] [])
  = (Ok (Some (@mkProcessor C (lit "a.pdf") two_pages full cs (Some [28])),
         Some (lit "pdf_collection")),
     @mkMachine C [(lit "chunk_0", lit "Hello world." ++ newline
                                   ++ lit "This is a test.")]
       ([] ++ [msg_extracting; msg_splitting;
               msg_generating default_model_name; msg_initializing;
               msg_adding; msg_stored 1 (lit "./chroma_db")])).
Proof.
  apply (@process_stores_chunks (fake_collaborators two_pages)
           (lit "a.pdf") (lit "./chroma_db") (lit "pdf_collection")
           (@mkMachine (fake_collaborators two_pages) [] [])
           two_pages [] [] [] [] []
           [(lit "chunk_0", lit "Hello world." ++ newline
                            ++ lit "This is a test.")]
           (lit "Hello world." ++ newline ++ lit "This is a test." ++ newline)
           (@mkProcessor (fake_collaborators two_pages) (lit "a.pdf") two_pages
              (lit "Hello world." ++ newline ++ lit "This is a test."
               ++ newline) [] None)
           [lit "Hello world." ++ newline ++ lit "This is a test."]
           tt [28] tt (lit "pdf_collection")
           [] [] [] [] []
           [(lit "chunk_0", lit "Hello world." ++ newline
                            ++ lit "This is a test.")]);
    vm_compute; reflexivity.
Defined.

Section Outcomes.

Context {C : Collaborators}.

(** A value returned by the statements under [try:] is a processor with a
    collection. *)
Lemma pipeline_body_returns (path db_path name : str) (m m' : machine)
  (v : option PDFProcessor * option Collection) :
  pipeline_body path db_path name m = (Ok v, m') ->
  exists p c, v = (Some p, Some c).
Proof.
  unfold pipeline_body, init, bind, call, print, ret. cbn [world stdout].
  destruct (PdfReader path (world m)) as [[r|e] w1]; [|discriminate].
  destruct (generate_embeddings _ _ _ _ _) as [[[emb p]|e] m2];
    [|discriminate].
  cbn [world stdout].
  destruct (console_write msg_initializing (world m2)) as [[[]|e] w3a];
    [|discriminate].
  cbn [world stdout].
  destruct (PersistentClient db_path w3a) as [[client|e] w4];
    [|discriminate].
  cbn [world stdout].
  destruct (get_or_create_collection client name w4) as [[coll|e] w5];
    [|discriminate].
  cbn [world stdout].
  destruct (console_write msg_adding w5) as [[[]|e] w5a]; [|discriminate].
  cbn [world stdout].
  destruct (upsert coll _ emb (chunks p) w5a) as [[u|e] w6]; [|discriminate].
  cbn [world stdout].
  destruct (console_write _ w6) as [[[]|e] w7]; [|discriminate].
  intros [= <- _]. eauto.
Qed.

End Outcomes.

(** The pipeline returns all or nothing, and what reaches the caller comes
    from two places only.  Whatever the collaborators and the console do, a
    run ends in one of four ways: it returns a processor with a collection;
    or the statements under [try:] raised an instance [e] of [Exception], the
    [print] of the handler returned and [(None, None)] is returned, the line
    made of U+26A0, U+FE0F, [" Error: "] and [str(e)] being the last one
    printed; or they raised such an [e] and the [print] of the handler raised
    in its turn, which reaches the caller; or they raised an exception that
    is not an instance of [Exception], which reaches the caller.  It never
    returns one of the two values without the other. *)
Theorem process_outcomes {C : Collaborators}
  (path db_path name : str) (m : machine) :
  (exists p c m',
     process_pdf_and_store_in_chroma path db_path name m
     = (Ok (Some p, Some c), m'))
  \/ (exists e m' w',
        pipeline_body path db_path name m = (Raise e, m')
        /\ isinstance_Exception e = true
        /\ console_write ([9888%N; 65039%N] ++ lit " Error: " ++ exn_str e)
             (world m') = (Ok tt, w')
        /\ process_pdf_and_store_in_chroma path db_path name m
           = (Ok (None, None),
              mkMachine w'
                (stdout m'
                 ++ [[9888%N; 65039%N] ++ lit " Error: " ++ exn_str e])))
  \/ (exists e m' e' w',
        pipeline_body path db_path name m = (Raise e, m')
        /\ isinstance_Exception e = true
        /\ console_write ([9888%N; 65039%N] ++ lit " Error: " ++ exn_str e)
             (world m') = (Raise e', w')
        /\ process_pdf_and_store_in_chroma path db_path name m
           = (Raise e', mkMachine w' (stdout m')))
  \/ (exists e m',
        pipeline_body path db_path name m = (Raise e, m')
        /\ isinstance_Exception e = false
        /\ process_pdf_and_store_in_chroma path db_path name m
           = (Raise e, m')).
Proof.
  unfold process_pdf_and_store_in_chroma, try_except_Exception.
  destruct (pipeline_body path db_path name m) as [[v|e] m'] eqn:B.
  - destruct (pipeline_body_returns _ _ _ _ _ _ B) as (p & c & ->).
    left. eauto.
  - destruct (isinstance_Exception e) eqn:E.
    + unfold bind, print, ret, msg_error.
      destruct (console_write ([9888%N; 65039%N] ++ lit " Error: " ++ exn_str e)
                  (world m')) as [[[]|e'] w'] eqn:P.
      * right. left. exists e, m', w'.
        repeat split; first [reflexivity | assumption].
      * right. right. left. exists e, m', e', w'.
        repeat split; first [reflexivity | assumption].
    + right. right. right. exists e, m'.
      repeat split; first [reflexivity | assumption].
Qed.

(** ** Instances *)

Lemma split_text_smart_total_witness :
  exists out,
    split_text_smart (Some (lit "Hello world. This is a test.")) 4 (-2)
    = Ok out.
Proof.
  apply (split_text_smart_total (Some (lit "Hello world. This is a test."))
           4 (-2)).
  reflexivity.
Defined.

Lemma stitching_rule_positive_overlap_witness :
  split_text_smart (Some (lit "Hello world. This is a test.")) 4 2
  = Ok (spec_stitch_all (Z.to_nat 2) None
          [lit "Hell"; lit "o wo"; lit "rld."; lit "This"; lit "is";
           lit "a te"; lit "st."]).
Proof.
  apply (stitching_rule_positive_overlap
           (lit "Hello world. This is a test.") 4 2).
  - reflexivity.
  - discriminate.
  - vm_compute. reflexivity.
Defined.

Lemma process_propagates_non_exceptions_witness :
  let C := fake_collaborators [Raise keyboard_interrupt] in
  @process_pdf_and_store_in_chroma C (lit "a.pdf") (lit "./chroma_db")
    (lit "pdf_collection") (@mkMachine C [] [])
  = (Raise keyboard_interrupt, @mkMachine C [] ([] ++ [msg_extracting])).
Proof.
  apply (@process_propagates_non_exceptions
           (fake_collaborators [Raise keyboard_interrupt])
           (lit "a.pdf") (lit "./chroma_db") (lit "pdf_collection")
           (@mkMachine (fake_collaborators [Raise keyboard_interrupt]) [] [])
           (@mkMachine (fake_collaborators [Raise keyboard_interrupt]) []
              ([] ++ [msg_extracting]))
           keyboard_interrupt).
  - eapply (@extraction_raises
              (fake_collaborators [Raise keyboard_interrupt]));
      reflexivity.
  - reflexivity.
Defined.
